(** * evol_coevol: variant selection and output pipeline of ProDy's
      [evol coevol] application

    Shallow embedding of [lib/prody/apps/evol_apps/evol_coevol.py] and
    the properties of its task planner and output driver. *)

From Stdlib Require Import Ascii String ZArith QArith.
From stdpp Require Import base tactics option list strings gmap.

Local Open Scope Z_scope.

(** ** Path handling: [os.path.splitext] and the default prefix *)

Module Path.

(** [p.rfind(c)] for a one-character needle: the index of the last
    occurrence of [c] in [p], or [-1]. *)
Fixpoint rfind (c : ascii) (p : string) : Z :=
  match p with
  | EmptyString => -1
  | String a q =>
      let r := rfind c q in
      if 0 <=? r then 1 + r
      else if Ascii.eqb a c then 0 else -1
  end.

(** [p[:n]] and [p[n:]] for [0 <= n]. *)
Fixpoint str_take (n : nat) (p : string) : string :=
  match n, p with
  | S n', String a q => String a (str_take n' q)
  | _, _ => EmptyString
  end.

Fixpoint str_drop (n : nat) (p : string) : string :=
  match n, p with
  | S n', String _ q => str_drop n' q
  | _, _ => p
  end.

(** [p[i:i+1] != extsep] for [0 <= i]. *)
Definition slice1_differs (p : string) (i : Z) (extsep : ascii) : bool :=
  match String.get (Z.to_nat i) p with
  | Some a => negb (Ascii.eqb a extsep)
  | None => true
  end.

(** The [while filenameIndex < dotIndex] loop of [genericpath._splitext];
    [n] is the number of iterations left, [dotIndex - filenameIndex]. *)
Fixpoint splitext_loop (p : string) (extsep : ascii) (n : nat)
    (filenameIndex dotIndex : Z) : string * string :=
  match n with
  | O => (p, "")
  | S n' =>
      if slice1_differs p filenameIndex extsep
      then (str_take (Z.to_nat dotIndex) p, str_drop (Z.to_nat dotIndex) p)
      else splitext_loop p extsep n' (filenameIndex + 1) dotIndex
  end.

(** [genericpath._splitext(p, sep, None, extsep)]. *)
Definition genericpath_splitext (p : string) (sep extsep : ascii)
    : string * string :=
  let sepIndex := rfind sep p in
  let dotIndex := rfind extsep p in
  if sepIndex <? dotIndex
  then splitext_loop p extsep (Z.to_nat (dotIndex - (sepIndex + 1)))
         (sepIndex + 1) dotIndex
  else (p, "").

(** [os.path.splitext] of the Python standard library, in its POSIX
    version ([posixpath.splitext]). *)
Definition splitext (p : string) : string * string :=
  genericpath_splitext p "/"%char "."%char.

(** [str.lower] on the ASCII letters; the other characters are left as
    they are, which is all the comparison with ['.gz'] depends on. *)
Definition lower_ascii (a : ascii) : ascii :=
  let n := nat_of_ascii a in
  if (65 <=? n)%nat && (n <=? 90)%nat then ascii_of_nat (n + 32) else a.

Fixpoint lower (s : string) : string :=
  match s with
  | EmptyString => EmptyString
  | String a q => String (lower_ascii a) (lower q)
  end.

(** Lines 121-124 of [evol_coevol]: the prefix used when none is given. *)
Definition default_prefix (msa : string) : string :=
  let '(prefix, ext) := splitext msa in
  let prefix :=
    if String.eqb (lower ext) ".gz" then fst (splitext prefix) else prefix in
  prefix +:+ "_mutinfo".

(** The derivation as the specification words it: a trailing [".gz"] is
    removed when the name ends with it, then the remaining extension,
    then ["_mutinfo"] is appended. *)
Definition ends_with (suffix s : string) : bool :=
  String.eqb (str_drop (String.length s - String.length suffix) s) suffix
  && (String.length suffix <=? String.length s)%nat.

Definition strip_trailing (suffix s : string) : string :=
  if ends_with suffix s
  then str_take (String.length s - String.length suffix) s
  else s.

Definition spec_default_prefix (msa : string) : string :=
  fst (splitext (strip_trailing ".gz" msa)) +:+ "_mutinfo".

(** The extension-aware reading: the last extension is removed first when,
    lower-cased, it is [".gz"]. *)
Definition strip_gz_ext (msa : string) : string :=
  if String.eqb (lower (snd (splitext msa))) ".gz"
  then fst (splitext msa) else msa.

(** The last component of [stem] (what follows its last ["/"]) has a
    character other than ["."]. *)
Definition basename_has_non_dot (stem : string) : Prop :=
  ∃ (i : nat) (a : ascii),
    rfind "/"%char stem < Z.of_nat i
    ∧ String.get i stem = Some a
    ∧ a ≠ "."%char.

End Path.

(** ** Python values crossing the interface *)

(** An entry of the [**kwargs] dictionary: the key is absent, bound to
    [None], or bound to a value. *)
Inductive kwarg (A : Type) : Type :=
  | Missing
  | PyNone
  | Val (a : A).
Arguments Missing {A}.
Arguments PyNone {A}.
Arguments Val {A} a.

(** [kwargs.get(key, default)]; [None] stands for Python's [None]. *)
Definition kwargs_get {A} (k : kwarg A) (default : option A) : option A :=
  match k with
  | Missing => default
  | PyNone => None
  | Val a => Some a
  end.

(** Truth value of [kwargs.get(key)] for a boolean option. *)
Definition truthy (v : option bool) : bool :=
  match v with
  | Some b => b
  | None => false
  end.

(** The options [evol_coevol] receives (the destinations declared with
    [APP.addArgument], [APP.addFigarg] and [APP.addFigure]). *)
Record Kwargs : Type := {
  kw_prefix : kwarg string;
  kw_numformat : kwarg string;
  kw_normalization : kwarg (list string);
  kw_correction : kwarg (list string);
  kw_ambiguity : kwarg bool;
  kw_omitgaps : kwarg bool;
  kw_figcoevol : kwarg bool;
  kw_cmin : kwarg Q;
  kw_cmax : kwarg Q;
  kw_figwidth : kwarg Q;
  kw_figheight : kwarg Q;
  kw_figargs : kwarg (list string);
  kw_figformat : kwarg string;
  kw_figdpi : kwarg Q
}.

(** The same options with other colour limits. *)
Definition with_clim (kw : Kwargs) (cmin cmax : kwarg Q) : Kwargs :=
  {| kw_prefix := kw_prefix kw;
     kw_numformat := kw_numformat kw;
     kw_normalization := kw_normalization kw;
     kw_correction := kw_correction kw;
     kw_ambiguity := kw_ambiguity kw;
     kw_omitgaps := kw_omitgaps kw;
     kw_figcoevol := kw_figcoevol kw;
     kw_cmin := cmin;
     kw_cmax := cmax;
     kw_figwidth := kw_figwidth kw;
     kw_figheight := kw_figheight kw;
     kw_figargs := kw_figargs kw;
     kw_figformat := kw_figformat kw;
     kw_figdpi := kw_figdpi kw |}.

(** Exceptions a call can raise. *)
Inductive exn : Type :=
  | ImportError
  | TypeError
  | Error (msg : string).

Inductive result (A : Type) : Type :=
  | Ok (a : A)
  | Raise (e : exn).
Arguments Ok {A} a.
Arguments Raise {A} e.

(** Values stored in [prody.SETTINGS]. *)
Inductive setting : Type :=
  | SBool (b : bool)
  | SInt (z : Z)
  | SStr (s : string).

(** The only assignment made to [prody.SETTINGS]: either it did not
    happen, or ['auto_show'] is now [False]. *)
Definition settings_after (s s' : gmap string setting) : Prop :=
  s' = s ∨ s' = <["auto_show" := SBool false]> s.

(** ** The task list *)

Inductive what : Type :=
  | Norm
  | Corr.

(** An element of [todo]: [(None, None)], [('norm', which)] or
    [('corr', which)]. *)
Inductive task : Type :=
  | Base
  | Variant (w : what) (which : string).

Global Instance what_eq_dec : EqDecision what.
Proof. solve_decision. Defined.

Global Instance task_eq_dec : EqDecision task.
Proof. solve_decision. Defined.

(** Lines 134-139: the normalization tasks. *)
Fixpoint norm_loop (norm : list string) : list task :=
  match norm with
  | [] => []
  | which :: rest =>
      if bool_decide (which = "join") then norm_loop rest
      else Variant Norm which :: norm_loop rest
  end.

Definition plan_norm (norm : list string) : list task :=
  (if bool_decide ("joint" ∈ norm) then [Variant Norm "joint"] else [])
  ++ norm_loop norm.

(** Lines 140-142: the correction tasks. *)
Definition plan_corr (corr : list string) : list task :=
  map (Variant Corr) corr.

(** Lines 131-142: [todo] from the values of [kwargs.get('normalization',
    [])] and [kwargs.get('correction', [])]. *)
Definition plan (norm corr : option (list string)) : list task :=
  [Base]
  ++ match norm with Some norm => plan_norm norm | None => [] end
  ++ match corr with Some corr => plan_corr corr | None => [] end.

Definition todo_of (kw : Kwargs) : list task :=
  plan (kwargs_get (kw_normalization kw) (Some []))
       (kwargs_get (kw_correction kw) (Some [])).

(** Tasks that take the [which == 'joint'] branch, and tasks that take the
    branch reading [entropy]. *)
Definition is_joint (t : task) : bool :=
  match t with
  | Base => false
  | Variant _ which => bool_decide (which = "joint")
  end.

Definition needs_entropy (t : task) : bool :=
  match t with
  | Variant Norm which => negb (bool_decide (which = "joint"))
  | _ => false
  end.

(** The suffix the loop body assigns for a task. *)
Definition suffix_of (t : task) : string :=
  match t with
  | Base => ""
  | Variant w which =>
      if bool_decide (which = "joint") then "_norm_joint"
      else match w with
           | Norm => "_norm_" +:+ which
           | Corr => "_corr_" +:+ which
           end
  end.

(** ** Collaborators, effects and the driver *)

Section Driver.

(** The parsed alignment, the matrices and the entropy vector are opaque
    to the application. *)
Context {Alignment Matrix Entropy : Type}.

(** The functions imported from [prody], [matplotlib.pyplot] and the
    figure object.  Each is a function of the arguments the application
    passes; calls written [f(msa, **kwargs)] receive the whole option
    record.  The boolean of [buildMutinfoMatrix] tells whether [norm=True]
    is passed.  What [calcShannonEntropy] returns is kept in the variable
    [entropy], which the code tests against [None]: the returned value is an
    entropy or [None], and [applyMutinfoNorm] receives it as it is. *)
Record Collaborators : Type := {
  parseMSA : string → result Alignment;
  buildMutinfoMatrix : Alignment → bool → Kwargs → result Matrix;
  calcShannonEntropy : Alignment → Kwargs → result (option Entropy);
  applyMutinfoNorm : Matrix → option Entropy → string → result Matrix;
  applyMutinfoCorr : Matrix → string → result Matrix;
  writeArray : string → Matrix → option string → result unit;
  import_pyplot : result unit;
  plt_figure : option Q → option Q → result unit;
  showMutinfoMatrix : Matrix → list string → Alignment → result unit;
  savefig : string → string → option Q → result unit
}.

Inductive logmsg : Type :=
  | ApplyingNormalization (which : string)
  | ApplyingCorrection (which : string)
  | MatplotlibNotImported.

(** What the application does to the outside, in order. *)
Inductive event : Type :=
  | ParseMSA (filename : string)
  | BuildMutinfoMatrix (msa : Alignment) (norm : bool)
  | CalcShannonEntropy (msa : Alignment)
  | ApplyMutinfoNorm (mutinfo : Matrix) (entropy : option Entropy)
      (norm : string)
  | ApplyMutinfoCorr (mutinfo : Matrix) (which : string)
  | WriteArray (filename : string) (array : Matrix) (format : option string)
  | LoggerInfo (msg : logmsg)
  | LoggerWarn (msg : logmsg)
  | ImportPyplot
  | PltFigure (width height : option Q)
  | ShowMutinfoMatrix (matrix : Matrix) (figargs : list string)
      (msa : Alignment)
  | Savefig (filename : string) (format : string) (dpi : option Q).

(** A call together with the exception it raised, if any. *)
Definition entry : Type := event * option exn.

(** Computations: they read and update [prody.SETTINGS], append to the
    trace of calls, and return or raise. *)
Definition M (A : Type) : Type :=
  gmap string setting → list entry * gmap string setting * result A.

Definition ret {A} (a : A) : M A := λ s, ([], s, Ok a).

Definition raise {A} (e : exn) : M A := λ s, ([], s, Raise e).

Definition bind {A B} (m : M A) (k : A → M B) : M B :=
  λ s,
    match m s with
    | (tr, s1, Ok a) =>
        match k a s1 with
        | (tr', s2, r) => ((tr ++ tr')%list, s2, r)
        end
    | (tr, s1, Raise e) => (tr, s1, Raise e)
    end.

Definition raised {A} (r : result A) : option exn :=
  match r with
  | Ok _ => None
  | Raise e => Some e
  end.

(** Calling a collaborator: the call is recorded with its outcome. *)
Definition call {A} (ev : event) (r : result A) : M A :=
  λ s, ([(ev, raised r)], s, r).

(** [try: m except ImportError: handler else: orelse]; the [else] suite
    runs outside of the protected region. *)
Definition try_except_ImportError {A B} (m : M A) (handler : M B)
    (orelse : A → M B) : M B :=
  λ s,
    match m s with
    | (tr, s1, Ok a) =>
        match orelse a s1 with
        | (tr', s2, r) => ((tr ++ tr')%list, s2, r)
        end
    | (tr, s1, Raise ImportError) =>
        match handler s1 with
        | (tr', s2, r) => ((tr ++ tr')%list, s2, r)
        end
    | (tr, s1, Raise e) => (tr, s1, Raise e)
    end.

(** [prody.SETTINGS[key] = v]. *)
Definition set_setting (key : string) (v : setting) : M unit :=
  λ s, ([], <[key := v]> s, Ok tt).

End Driver.

Arguments Collaborators : clear implicits.
Arguments event : clear implicits.
Arguments entry : clear implicits.
Arguments M : clear implicits.

Notation "'let*' x ':=' m 'in' k" := (bind m (λ x, k))
  (at level 10, x name, m at level 100, k at level 200).
Notation "'let*' ' pat ':=' m 'in' k" :=
  (bind m (λ x, match x with pat => k end))
  (at level 10, pat pattern, m at level 100, k at level 200).

Section Run.

Context {Alignment Matrix Entropy : Type}.
Context (env : Collaborators Alignment Matrix Entropy).
Context (kwargs : Kwargs).

Abbreviation event := (event Alignment Matrix Entropy).
Abbreviation M := (M Alignment Matrix Entropy).

(** The local variables the loop reads and assigns; [l_entropy] is the
    value of [entropy], [None] for Python's [None]. *)
Record locals : Type := {
  l_msa : Alignment;
  l_mutinfo : Matrix;
  l_prefix : string;
  l_entropy : option Entropy
}.

Definition set_entropy (l : locals) (entropy : option Entropy) : locals :=
  {| l_msa := l_msa l;
     l_mutinfo := l_mutinfo l;
     l_prefix := l_prefix l;
     l_entropy := entropy |}.

(** Lines 155-156: [if entropy is None: entropy = calcShannonEntropy(...)];
    the value assigned is whatever the call returns, [None] included. *)
Definition get_entropy (l : locals) : M (locals * option Entropy) :=
  match l_entropy l with
  | Some entropy => ret (l, Some entropy)
  | None =>
      let* entropy := call (CalcShannonEntropy (l_msa l))
                           (calcShannonEntropy env (l_msa l) kwargs) in
      ret (set_entropy l entropy, entropy)
  end.

(** Lines 146-162: the matrix and the suffix of a task. *)
Definition select_matrix (t : task) (l : locals)
    : M (locals * Matrix * string) :=
  match t with
  | Base => ret (l, l_mutinfo l, "")
  | Variant w which =>
      if bool_decide (which = "joint") then
        let* _ := call (LoggerInfo (ApplyingNormalization which)) (Ok tt) in
        let* matrix := call (BuildMutinfoMatrix (l_msa l) true)
                            (buildMutinfoMatrix env (l_msa l) true kwargs) in
        ret (l, matrix, "_norm_joint")
      else
        match w with
        | Norm =>
            let* _ := call (LoggerInfo (ApplyingNormalization which))
                           (Ok tt) in
            let* '(l, entropy) := get_entropy l in
            let* matrix := call (ApplyMutinfoNorm (l_mutinfo l) entropy which)
                             (applyMutinfoNorm env (l_mutinfo l) entropy
                                which) in
            ret (l, matrix, "_norm_" +:+ which)
        | Corr =>
            let* _ := call (LoggerInfo (ApplyingCorrection which)) (Ok tt) in
            let* matrix := call (ApplyMutinfoCorr (l_mutinfo l) which)
                             (applyMutinfoCorr env (l_mutinfo l) which) in
            ret (l, matrix, "_corr_" +:+ which)
        end
  end.

(** A Python value that must not be [None] where it is used ([*figargs],
    [... + format]). *)
Definition not_none {A} (v : option A) : M A :=
  match v with
  | Some a => ret a
  | None => raise TypeError
  end.

(** Lines 173-186: the [else] branch of the import, outside the [try]. *)
Definition render (l : locals) (matrix : Matrix) (suffix : string)
    : M unit :=
  let* _ := set_setting "auto_show" (SBool false) in
  let width := kwargs_get (kw_figwidth kwargs) (Some 8%Q) in
  let height := kwargs_get (kw_figheight kwargs) (Some 6%Q) in
  let figargs := kwargs_get (kw_figargs kwargs) (Some []) in
  let* _ := call (PltFigure width height) (plt_figure env width height) in
  let* figargs := not_none figargs in
  let* _ := call (ShowMutinfoMatrix matrix figargs (l_msa l))
                 (showMutinfoMatrix env matrix figargs (l_msa l)) in
  let* format := not_none (kwargs_get (kw_figformat kwargs) (Some "pdf")) in
  let dpi := kwargs_get (kw_figdpi kwargs) (Some 300%Q) in
  let filename := l_prefix l +:+ suffix +:+ "." +:+ format in
  call (Savefig filename format dpi) (savefig env filename format dpi).

(** Lines 167-186: [try: import ... except ImportError: ... else: ...]. *)
Definition save_figure (l : locals) (matrix : Matrix) (suffix : string)
    : M unit :=
  try_except_ImportError
    (call ImportPyplot (import_pyplot env))
    (call (LoggerWarn MatplotlibNotImported) (Ok tt))
    (λ _, render l matrix suffix).

(** Lines 167-186: [if kwargs.get('figcoevol'): ...]. *)
Definition maybe_save_figure (l : locals) (matrix : Matrix)
    (suffix : string) : M unit :=
  if truthy (kwargs_get (kw_figcoevol kwargs) None)
  then save_figure l matrix suffix
  else ret tt.

(** Lines 146-186: the body of [for what, which in todo]. *)
Definition run_task (t : task) (l : locals) : M locals :=
  let* '(l, matrix, suffix) := select_matrix t l in
  let format := kwargs_get (kw_numformat kwargs) (Some "%12g") in
  let filename := l_prefix l +:+ suffix +:+ ".txt" in
  let* _ := call (WriteArray filename matrix format)
                 (writeArray env filename matrix format) in
  let* _ := maybe_save_figure l matrix suffix in
  ret l.

(** The text file of a task. *)
Definition text_path (l : locals) (t : task) : string :=
  l_prefix l +:+ suffix_of t +:+ ".txt".

(** The figure path of a task, when [figformat] is a string. *)
Definition is_figure_path (l : locals) (suffix p : string) : Prop :=
  ∃ format, kwargs_get (kw_figformat kwargs) (Some "pdf") = Some format
            ∧ p = l_prefix l +:+ suffix +:+ "." +:+ format.

(** The loop never assigns [msa], [mutinfo] or [prefix]. *)
Definition same_inputs (l l' : locals) : Prop :=
  l_msa l' = l_msa l ∧ l_mutinfo l' = l_mutinfo l ∧ l_prefix l' = l_prefix l.

(** Line 145: the loop over [todo]. *)
Fixpoint run_todo (todo : list task) (l : locals) : M locals :=
  match todo with
  | [] => ret l
  | t :: todo =>
      let* l := run_task t l in
      run_todo todo l
  end.

Definition initial_locals (prefix : string) (msa : Alignment)
    (mutinfo : Matrix) (entropy : option Entropy) : locals :=
  {| l_msa := msa; l_mutinfo := mutinfo; l_prefix := prefix;
     l_entropy := entropy |}.

(** Lines 119-124. *)
Definition prefix_of (msa : string) : string :=
  match kwargs_get (kw_prefix kwargs) None with
  | Some prefix => prefix
  | None => Path.default_prefix msa
  end.

(** The function [evol_coevol(msa, **kwargs)]. *)
Definition evol_coevol (msa : string) : M unit :=
  let prefix := prefix_of msa in
  let* msa := call (ParseMSA msa) (parseMSA env msa) in
  let* mutinfo := call (BuildMutinfoMatrix msa false)
                       (buildMutinfoMatrix env msa false kwargs) in
  let format := kwargs_get (kw_numformat kwargs) (Some "%12g") in
  let* _ := call (WriteArray (prefix +:+ ".txt") mutinfo format)
                 (writeArray env (prefix +:+ ".txt") mutinfo format) in
  let todo := todo_of kwargs in
  let entropy := None in
  let* _ := run_todo todo (initial_locals prefix msa mutinfo entropy) in
  ret tt.

End Run.
Arguments locals : clear implicits.
Arguments same_inputs {_ _ _} l l'.
Arguments text_path {_ _ _} l t.
Arguments is_figure_path {_ _ _} kwargs l suffix p.

(** ** Conditions on the collaborators *)

Section Conditions.

Context {Alignment Matrix Entropy : Type}.
Context (env : Collaborators Alignment Matrix Entropy).
Context (kwargs : Kwargs).

Definition is_ok {A} (r : result A) : Prop := ∃ a, r = Ok a.

(** Parsing, the numerical routines and [writeArray] never raise. *)
Definition no_fatal_error : Prop :=
  (∀ filename, is_ok (parseMSA env filename))
  ∧ (∀ msa norm, is_ok (buildMutinfoMatrix env msa norm kwargs))
  ∧ (∀ msa, is_ok (calcShannonEntropy env msa kwargs))
  ∧ (∀ mutinfo entropy norm, is_ok (applyMutinfoNorm env mutinfo entropy norm))
  ∧ (∀ mutinfo which, is_ok (applyMutinfoCorr env mutinfo which))
  ∧ (∀ filename array format, is_ok (writeArray env filename array format)).

(** Figures are requested and [matplotlib.pyplot] can be imported: the
    [else] suite of the import runs. *)
Definition renders_figures : bool :=
  truthy (kwargs_get (kw_figcoevol kwargs) None)
  && match import_pyplot env with Ok _ => true | Raise _ => false end.

End Conditions.

(** ** Observations on a run *)

Section Observations.

Context {Alignment Matrix Entropy : Type}.

Abbreviation entry := (entry Alignment Matrix Entropy).

Definition trace_of {A} (r : list entry * gmap string setting * result A)
    : list entry := r.1.1.

Definition settings_of {A} (r : list entry * gmap string setting * result A)
    : gmap string setting := r.1.2.

Definition outcome_of {A} (r : list entry * gmap string setting * result A)
    : result A := r.2.

(** The paths [writeArray] was called with, in order. *)
Definition write_path (e : entry) : option string :=
  match e.1 with
  | WriteArray filename _ _ => Some filename
  | _ => None
  end.

Definition write_paths (tr : list entry) : list string :=
  omap write_path tr.

(** The paths of the text files [writeArray] wrote without raising. *)
Definition written_path (e : entry) : option string :=
  match e with
  | (WriteArray filename _ _, None) => Some filename
  | _ => None
  end.

Definition written_paths (tr : list entry) : list string :=
  omap written_path tr.

(** The paths [figure.savefig] was called with. *)
Definition savefig_path (e : entry) : option string :=
  match e.1 with
  | Savefig filename _ _ => Some filename
  | _ => None
  end.

Definition savefig_paths (tr : list entry) : list string :=
  omap savefig_path tr.

(** How many times a text file was written. *)
Definition times_written (path : string) (tr : list entry) : nat :=
  length (filter (λ p, p = path) (written_paths tr)).

Definition is_entropy_call (e : entry) : bool :=
  match e.1 with
  | CalcShannonEntropy _ => true
  | _ => false
  end.

(** How many times [calcShannonEntropy] was called. *)
Definition entropy_calls (tr : list entry) : nat :=
  length (List.filter is_entropy_call tr).

(** The part of a trace that precedes the first call of
    [calcShannonEntropy] (the whole trace when there is none). *)
Fixpoint before_entropy (tr : list entry) : list entry :=
  match tr with
  | [] => []
  | e :: tr => if is_entropy_call e then [] else e :: before_entropy tr
  end.

(** The number of calls of [calcShannonEntropy] made by a loop over [todo]
    that completes, from the value [cache] of [entropy] and what the call
    returns: none with a filled cache or without a task that reads the
    entropy, one per such task while [None] is returned, one otherwise. *)
Definition entropy_calls_of (returned : result (option Entropy))
    (cache : option Entropy) (todo : list task) : nat :=
  match cache with
  | Some _ => 0
  | None =>
      match returned with
      | Ok None => length (List.filter needs_entropy todo)
      | _ => if existsb needs_entropy todo then 1 else 0
      end
  end.

Definition is_joint_build (e : entry) : bool :=
  match e.1 with
  | BuildMutinfoMatrix _ true => true
  | _ => false
  end.

(** How many times the jointly normalized matrix was computed. *)
Definition joint_builds (tr : list entry) : nat :=
  length (List.filter is_joint_build tr).

Definition is_warning (e : entry) : bool :=
  match e.1 with
  | LoggerWarn _ => true
  | _ => false
  end.

Definition warnings (tr : list entry) : nat :=
  length (List.filter is_warning tr).

End Observations.

(** ** A concrete set of collaborators, for running the model *)

Module Demo.

(** Alignments, matrices and entropies are represented by descriptions. *)
Definition env (pyplot : result unit) (savefig_result : string → result unit)
    : Collaborators string string string :=
  {| parseMSA := λ filename, Ok ("msa(" +:+ filename +:+ ")");
     buildMutinfoMatrix := λ msa norm _,
       Ok (if norm then "joint(" +:+ msa +:+ ")" else "mutinfo(" +:+ msa +:+ ")");
     calcShannonEntropy := λ msa _, Ok (Some ("entropy(" +:+ msa +:+ ")"));
     applyMutinfoNorm := λ mutinfo entropy norm,
       Ok (norm +:+ "(" +:+ mutinfo +:+ "," +:+ default "None" entropy
           +:+ ")");
     applyMutinfoCorr := λ mutinfo which, Ok (which +:+ "(" +:+ mutinfo +:+ ")");
     writeArray := λ _ _ _, Ok tt;
     import_pyplot := pyplot;
     plt_figure := λ _ _, Ok tt;
     showMutinfoMatrix := λ _ _ _, Ok tt;
     savefig := λ filename _ _, savefig_result filename |}.

Definition kwargs (prefix : kwarg string) (norm corr : kwarg (list string))
    (figcoevol : kwarg bool) : Kwargs :=
  {| kw_prefix := prefix;
     kw_numformat := Val "%12g";
     kw_normalization := norm;
     kw_correction := corr;
     kw_ambiguity := Val true;
     kw_omitgaps := Val true;
     kw_figcoevol := figcoevol;
     kw_cmin := PyNone;
     kw_cmax := PyNone;
     kw_figwidth := Val 8%Q;
     kw_figheight := Val 6%Q;
     kw_figargs := Val [];
     kw_figformat := Val "pdf";
     kw_figdpi := Val 300%Q |}.

(** The same collaborators with a [calcShannonEntropy] that returns
    [None]. *)
Definition env_entropy_none : Collaborators string string string :=
  {| parseMSA := parseMSA (env (Ok tt) (λ _, Ok tt));
     buildMutinfoMatrix := buildMutinfoMatrix (env (Ok tt) (λ _, Ok tt));
     calcShannonEntropy := λ _ _, Ok None;
     applyMutinfoNorm := applyMutinfoNorm (env (Ok tt) (λ _, Ok tt));
     applyMutinfoCorr := applyMutinfoCorr (env (Ok tt) (λ _, Ok tt));
     writeArray := writeArray (env (Ok tt) (λ _, Ok tt));
     import_pyplot := Ok tt;
     plt_figure := plt_figure (env (Ok tt) (λ _, Ok tt));
     showMutinfoMatrix := showMutinfoMatrix (env (Ok tt) (λ _, Ok tt));
     savefig := savefig (env (Ok tt) (λ _, Ok tt)) |}.

(** [figure.savefig] raising for one path only. *)
Definition savefig_fails_at (path : string) (filename : string)
    : result unit :=
  if String.eqb filename path then Raise (Error "savefig") else Ok tt.

(** [prody.SETTINGS] before the run. *)
Definition settings0 : gmap string setting :=
  {[ "auto_show" := SBool true ]}.

End Demo.

(** Options with [figformat] bound to [None]. *)
Definition with_figformat_none (kw : Kwargs) : Kwargs :=
  {| kw_prefix := kw_prefix kw;
     kw_numformat := kw_numformat kw;
     kw_normalization := kw_normalization kw;
     kw_correction := kw_correction kw;
     kw_ambiguity := kw_ambiguity kw;
     kw_omitgaps := kw_omitgaps kw;
     kw_figcoevol := kw_figcoevol kw;
     kw_cmin := kw_cmin kw;
     kw_cmax := kw_cmax kw;
     kw_figwidth := kw_figwidth kw;
     kw_figheight := kw_figheight kw;
     kw_figargs := kw_figargs kw;
     kw_figformat := PyNone;
     kw_figdpi := kw_figdpi kw |}.

(** ** The argument declarations *)

(** Line 74: ['sument minent maxent mincon maxcon joint'.split()]. *)
Definition normalization_choices : list string :=
  String.words "sument minent maxent mincon maxcon joint".

(** Line 65. *)
Definition correction_choices : list string := ["apc"; "asc"].

(** ** What a run is expected to call *)

Section Expected.

Context {Alignment Matrix Entropy : Type}.
Context (env : Collaborators Alignment Matrix Entropy).
Context (kwargs : Kwargs).

Abbreviation entry := (entry Alignment Matrix Entropy).

(** Lines 146-162 without the cache: the matrix of a task as a function of
    the parsed alignment and of the base matrix. *)
Definition matrix_of (msa : Alignment) (mutinfo : Matrix) (t : task)
    : result Matrix :=
  match t with
  | Base => Ok mutinfo
  | Variant w which =>
      if bool_decide (which = "joint")
      then buildMutinfoMatrix env msa true kwargs
      else match w with
           | Norm =>
               match calcShannonEntropy env msa kwargs with
               | Ok entropy => applyMutinfoNorm env mutinfo entropy which
               | Raise e => Raise e
               end
           | Corr => applyMutinfoCorr env mutinfo which
           end
  end.

(** The message logged for a task. *)
Definition info_of (t : task) : option logmsg :=
  match t with
  | Base => None
  | Variant w which =>
      if bool_decide (which = "joint")
      then Some (ApplyingNormalization which)
      else match w with
           | Norm => Some (ApplyingNormalization which)
           | Corr => Some (ApplyingCorrection which)
           end
  end.

(** A filled cache holds the entropy of the alignment. *)
Definition cache_ok (l : locals Alignment Matrix Entropy) : Prop :=
  ∀ entropy, l_entropy l = Some entropy →
             calcShannonEntropy env (l_msa l) kwargs = Ok (Some entropy).

(** The calls the body of the loop may make for task [t], with the
    arguments it must pass. *)
Definition expected_call (msa : Alignment) (mutinfo : Matrix)
    (prefix : string) (t : task) (e : entry) : Prop :=
  match e.1 with
  | ParseMSA _ => False
  | BuildMutinfoMatrix msa' norm =>
      msa' = msa ∧ norm = true ∧ is_joint t = true
  | CalcShannonEntropy msa' => msa' = msa ∧ needs_entropy t = true
  | ApplyMutinfoNorm mutinfo' entropy which =>
      mutinfo' = mutinfo
      ∧ calcShannonEntropy env msa kwargs = Ok entropy
      ∧ t = Variant Norm which ∧ which ≠ "joint"
  | ApplyMutinfoCorr mutinfo' which =>
      mutinfo' = mutinfo ∧ t = Variant Corr which ∧ which ≠ "joint"
  | WriteArray filename array format =>
      filename = prefix +:+ suffix_of t +:+ ".txt"
      ∧ matrix_of msa mutinfo t = Ok array
      ∧ format = kwargs_get (kw_numformat kwargs) (Some "%12g")
  | LoggerInfo msg => info_of t = Some msg
  | LoggerWarn msg =>
      msg = MatplotlibNotImported
      ∧ truthy (kwargs_get (kw_figcoevol kwargs) None) = true
      ∧ import_pyplot env = Raise ImportError
  | ImportPyplot => truthy (kwargs_get (kw_figcoevol kwargs) None) = true
  | PltFigure width height =>
      renders_figures env kwargs = true
      ∧ width = kwargs_get (kw_figwidth kwargs) (Some 8%Q)
      ∧ height = kwargs_get (kw_figheight kwargs) (Some 6%Q)
  | ShowMutinfoMatrix matrix figargs msa' =>
      renders_figures env kwargs = true
      ∧ matrix_of msa mutinfo t = Ok matrix
      ∧ kwargs_get (kw_figargs kwargs) (Some []) = Some figargs
      ∧ msa' = msa
  | Savefig filename format dpi =>
      renders_figures env kwargs = true
      ∧ is_Some (kwargs_get (kw_figargs kwargs) (Some []))
      ∧ kwargs_get (kw_figformat kwargs) (Some "pdf") = Some format
      ∧ filename = prefix +:+ suffix_of t +:+ "." +:+ format
      ∧ dpi = kwargs_get (kw_figdpi kwargs) (Some 300%Q)
  end.

(** The format of the figures a run saves, if it saves any. *)
Definition figure_format : option string :=
  if renders_figures env kwargs
  then kwargs_get (kw_figformat kwargs) (Some "pdf")
  else None.

(** The calls [evol_coevol(msa, **kwargs)] may make: parsing [msa], building
    the base matrix of the parsed alignment, and the calls expected for a
    planned task (the write before the loop is the one of the base task). *)
Definition expected_in_run (msa : string) (e : entry) : Prop :=
  e.1 = ParseMSA msa
  ∨ ∃ a, parseMSA env msa = Ok a
         ∧ (e.1 = BuildMutinfoMatrix a false
            ∨ ∃ mutinfo t,
                buildMutinfoMatrix env a false kwargs = Ok mutinfo
                ∧ t ∈ todo_of kwargs
                ∧ expected_call a mutinfo (prefix_of kwargs msa) t e).

(** The figure collaborators never raise. *)
Definition figures_succeed : Prop :=
  (∀ width height, is_ok (plt_figure env width height))
  ∧ (∀ matrix figargs msa, is_ok (showMutinfoMatrix env matrix figargs msa))
  ∧ (∀ filename format dpi, is_ok (savefig env filename format dpi)).

(** Nothing on the figure side can make the run raise: figures are not
    requested, or the import raises [ImportError], or the import works, the
    figure collaborators never raise and neither [figargs] nor [figformat]
    is [None]. *)
Definition figure_side_ok : Prop :=
  truthy (kwargs_get (kw_figcoevol kwargs) None) = true →
  match import_pyplot env with
  | Ok _ =>
      figures_succeed
      ∧ is_Some (kwargs_get (kw_figargs kwargs) (Some []))
      ∧ is_Some (kwargs_get (kw_figformat kwargs) (Some "pdf"))
  | Raise e => e = ImportError
  end.

(** The only failed call a run survives is the import raising
    [ImportError]. *)
Definition survivable (e : entry) : Prop :=
  e.2 = None ∨ e = (ImportPyplot, Some ImportError).

(** Exceptions propagate: a computation that returns made no failing call
    it could not survive; one that raises [x] stopped at the call that
    raised [x], or raised [TypeError] itself on a [None]. *)
Definition propagates {A} (run : list entry * gmap string setting * result A)
    : Prop :=
  match run.2 with
  | Ok _ => Forall survivable run.1.1
  | Raise x =>
      (∃ tr ev, run.1.1 = (tr ++ [(ev, Some x)])%list ∧ Forall survivable tr)
      ∨ (x = TypeError ∧ Forall survivable run.1.1)
  end.

(** The files a run produced, in order. *)
Inductive artifact : Type :=
  | TextFile (path : string)
  | FigureFile (path : string).

Definition artifact_of (e : entry) : option artifact :=
  match e with
  | (WriteArray filename _ _, None) => Some (TextFile filename)
  | (Savefig filename _ _, None) => Some (FigureFile filename)
  | _ => None
  end.

Definition artifacts (tr : list entry) : list artifact :=
  omap artifact_of tr.

(** The files of a task: its text file, then its figure if figures are
    rendered in format [format]. *)
Definition artifacts_of_task (prefix : string) (format : option string)
    (t : task) : list artifact :=
  TextFile (prefix +:+ suffix_of t +:+ ".txt")
  :: match format with
     | Some format =>
         [FigureFile (prefix +:+ suffix_of t +:+ "." +:+ format)]
     | None => []
     end.

End Expected.

Arguments artifact : clear implicits.

(** * Properties *)

(** ** Strings *)

Section StringLemmas.

Implicit Types a b c : string.

Lemma append_cons x a b : String x a +:+ b = String x (a +:+ b).
Proof. reflexivity. Qed.

Lemma length_append a b :
  String.length (a +:+ b) = (String.length a + String.length b)%nat.
Proof.
  induction a as [|x a IH]; [done|]. rewrite append_cons. simpl.
  by rewrite IH.
Qed.

Lemma append_inv_tail a b c : a +:+ c = b +:+ c → a = b.
Proof.
  revert b. induction a as [|x a IH]; intros [|y b] H.
  - done.
  - apply (f_equal String.length) in H.
    rewrite !length_append in H. simpl in H. lia.
  - apply (f_equal String.length) in H.
    rewrite !length_append in H. simpl in H. lia.
  - rewrite !append_cons in H. injection H as -> H. by rewrite (IH _ H).
Qed.

End StringLemmas.

(** ** Paths *)

Section PathLemmas.

Import Path.

Lemma rfind_bounds c p : -1 ≤ rfind c p < Z.of_nat (String.length p).
Proof.
  induction p as [|a p IH]; simpl; [lia|].
  destruct (Z.leb_spec 0 (rfind c p)); [lia|]. destruct (Ascii.eqb a c); lia.
Qed.

Lemma rfind_app c a b :
  rfind c (a +:+ b)
  = if 0 <=? rfind c b then Z.of_nat (String.length a) + rfind c b
    else rfind c a.
Proof.
  pose proof (rfind_bounds c b) as Hb.
  induction a as [|x a IH].
  - change ("" +:+ b) with b. simpl.
    destruct (Z.leb_spec 0 (rfind c b)); lia.
  - rewrite append_cons. simpl. rewrite IH.
    destruct (Z.leb_spec 0 (rfind c b)) as [Hr|Hr].
    + destruct (Z.leb_spec 0 (Z.of_nat (String.length a) + rfind c b)); lia.
    + done.
Qed.

Lemma str_take_app a b : str_take (String.length a) (a +:+ b) = a.
Proof.
  induction a as [|x a IH]; [by destruct b|].
  rewrite append_cons. simpl. by rewrite IH.
Qed.

Lemma str_drop_app a b : str_drop (String.length a) (a +:+ b) = b.
Proof. induction a as [|x a IH]; [done|]. by rewrite append_cons. Qed.

Lemma get_Some_lt i p a :
  String.get i p = Some a → (i < String.length p)%nat.
Proof.
  revert i. induction p as [|x p IH]; intros [|i]; simpl; try done; [lia|].
  intros H%IH. lia.
Qed.

(** The loop stops at the first character that is not [extsep]. *)
Lemma splitext_loop_found p extsep n filenameIndex dotIndex j :
  filenameIndex ≤ j < filenameIndex + Z.of_nat n →
  slice1_differs p j extsep = true →
  splitext_loop p extsep n filenameIndex dotIndex
  = (str_take (Z.to_nat dotIndex) p, str_drop (Z.to_nat dotIndex) p).
Proof.
  revert filenameIndex.
  induction n as [|n IH]; intros filenameIndex Hj Hdiff; [lia|]. simpl.
  destruct (slice1_differs p filenameIndex extsep) eqn:Hfirst; [done|].
  apply IH; [|done].
  assert (j ≠ filenameIndex) by (intros ->; congruence). lia.
Qed.

(** An extension appended to a proper file name is split off again. *)
Lemma splitext_app stem ext :
  basename_has_non_dot stem →
  rfind "."%char ext = 0 →
  rfind "/"%char ext = -1 →
  splitext (stem +:+ ext) = (stem, ext).
Proof.
  intros (i & a & Hsep & Hget & Ha) Hdot Hslash.
  pose proof (get_Some_lt _ _ _ Hget) as Hi.
  unfold splitext, genericpath_splitext.
  rewrite !rfind_app, Hdot, Hslash. simpl.
  rewrite Z.add_0_r.
  pose proof (rfind_bounds "/"%char stem) as Hb.
  destruct (Z.ltb_spec (rfind "/"%char stem) (Z.of_nat (String.length stem)));
    [|lia].
  rewrite (splitext_loop_found _ _ _ _ _ (Z.of_nat i)).
  - rewrite Nat2Z.id. by rewrite str_take_app, str_drop_app.
  - lia.
  - unfold slice1_differs. rewrite Nat2Z.id.
    rewrite <-(append_correct1 stem ext i Hi), Hget.
    apply negb_true_iff. by apply Ascii.eqb_neq.
Qed.

Lemma lower_ascii_dot a : lower_ascii a = "."%char → a = "."%char.
Proof.
  destruct a as [[] [] [] [] [] [] [] []]; vm_compute; intros H;
    first [done | discriminate H].
Qed.

Lemma lower_ascii_g a :
  lower_ascii a = "g"%char → a = "g"%char ∨ a = "G"%char.
Proof.
  destruct a as [[] [] [] [] [] [] [] []]; vm_compute; intros H;
    first [by left | by right | discriminate H].
Qed.

Lemma lower_ascii_z a :
  lower_ascii a = "z"%char → a = "z"%char ∨ a = "Z"%char.
Proof.
  destruct a as [[] [] [] [] [] [] [] []]; vm_compute; intros H;
    first [by left | by right | discriminate H].
Qed.

(** The extensions the test [_.lower() == '.gz'] accepts. *)
Lemma lower_gz ext :
  lower ext = ".gz" → ext = ".gz" ∨ ext = ".gZ" ∨ ext = ".Gz" ∨ ext = ".GZ".
Proof.
  destruct ext as [|d [|g [|z [|? ?]]]]; try done. simpl.
  intros [= ->%lower_ascii_dot Hg%lower_ascii_g Hz%lower_ascii_z].
  destruct Hg as [-> | ->], Hz as [-> | ->]; auto.
Qed.

Lemma default_prefix_unfold msa :
  default_prefix msa = fst (splitext (strip_gz_ext msa)) +:+ "_mutinfo".
Proof.
  unfold default_prefix, strip_gz_ext.
  destruct (splitext msa) as [prefix ext] eqn:Hsplit. simpl.
  destruct (String.eqb (lower ext) ".gz"); [done|]. by rewrite Hsplit.
Qed.

End PathLemmas.

(** ** The planner *)

Section PlannerLemmas.

Implicit Types norm corr : list string.

Lemma norm_loop_filter norm :
  norm_loop norm = map (Variant Norm) (filter (λ which, which ≠ "join") norm).
Proof.
  induction norm as [|which norm IH]; [done|]. simpl.
  rewrite filter_cons. case_bool_decide as Hj.
  - rewrite decide_False by (by intros ?). done.
  - rewrite decide_True by done. simpl. by rewrite IH.
Qed.

Lemma norm_loop_app norm norm' :
  norm_loop (norm ++ norm') = (norm_loop norm ++ norm_loop norm')%list.
Proof.
  induction norm as [|which norm IH]; [done|]. simpl.
  case_bool_decide; [done|]. simpl. by rewrite IH.
Qed.

Lemma elem_of_norm_loop t norm :
  t ∈ norm_loop norm ↔ ∃ which, t = Variant Norm which ∧ which ∈ norm
                                 ∧ which ≠ "join".
Proof.
  rewrite norm_loop_filter, list_elem_of_fmap. split.
  - intros (which & -> & Hin). apply list_elem_of_filter in Hin as [??].
    eauto.
  - intros (which & -> & ? & ?). exists which. split; [done|].
    by apply list_elem_of_filter.
Qed.

(** The suffix tells the branch apart. *)
Lemma suffix_of_joint t : suffix_of t = "_norm_joint" ↔ is_joint t = true.
Proof.
  destruct t as [|w which]; simpl; [done|].
  case_bool_decide as Hj; [done|]. split; [|done].
  destruct w; intros H; [|done].
  by apply (inj (String.append "_norm_")) in H.
Qed.

Lemma suffix_of_join t : suffix_of t = "_norm_join" → t = Variant Norm "join".
Proof.
  destruct t as [|w which]; simpl; [done|].
  case_bool_decide as Hj; [done|].
  destruct w; intros H; [|done].
  by apply (inj (String.append "_norm_")) in H as ->.
Qed.

Lemma count_joint_suffix (prefix : string) (todo : list task) :
  length (filter (λ p, p = prefix +:+ "_norm_joint" +:+ ".txt")
            (map (λ t, prefix +:+ suffix_of t +:+ ".txt") todo))
  = length (List.filter is_joint todo).
Proof.
  induction todo as [|t todo IH]; [done|]. simpl. rewrite filter_cons.
  destruct (is_joint t) eqn:Hj.
  - apply suffix_of_joint in Hj as ->. rewrite decide_True by done.
    simpl. by rewrite IH.
  - rewrite decide_False; [done|]. intros H.
    apply (inj (String.append prefix)) in H.
    apply (append_inv_tail _ "_norm_joint") in H.
    apply suffix_of_joint in H. congruence.
Qed.

Lemma is_joint_norm_loop norm :
  length (List.filter is_joint (norm_loop norm))
  = length (filter (λ which, which = "joint") norm).
Proof.
  induction norm as [|which norm IH]; [done|]. simpl. rewrite filter_cons.
  case_bool_decide as Hj.
  - subst which. by rewrite decide_False.
  - simpl. case_bool_decide as Hj'.
    + rewrite decide_True by done. simpl. by rewrite IH.
    + by rewrite decide_False.
Qed.

Lemma is_joint_plan_corr corr :
  length (List.filter is_joint (plan_corr corr))
  = length (filter (λ which, which = "joint") corr).
Proof.
  induction corr as [|which corr IH]; [done|]. simpl. rewrite filter_cons.
  case_bool_decide.
  - rewrite decide_True by done. simpl. by rewrite IH.
  - by rewrite decide_False.
Qed.

Lemma count_none (x : string) (l : list string) :
  x ∉ l → length (filter (λ y, y = x) l) = 0%nat.
Proof.
  induction l as [|y l IH]; [done|]. rewrite filter_cons.
  intros [Hy Hl]%not_elem_of_cons. rewrite decide_False by done. auto.
Qed.

Lemma count_once (x : string) (l : list string) :
  NoDup l → x ∈ l → length (filter (λ y, y = x) l) = 1%nat.
Proof.
  induction 1 as [|y l Hy Hl IH]; [by intros ?%elem_of_nil|].
  rewrite filter_cons. intros [->|Hin]%elem_of_cons.
  - rewrite decide_True by done. simpl. by rewrite count_none.
  - rewrite decide_False by (intros ->; done). auto.
Qed.

Lemma count_some (x : string) (l : list string) :
  x ∈ l → (1 ≤ length (filter (λ y, y = x) l))%nat.
Proof.
  induction l as [|y l IH]; [by intros ?%elem_of_nil|].
  rewrite filter_cons. intros [->|Hin]%elem_of_cons.
  - rewrite decide_True by done. simpl. lia.
  - case_decide; simpl; [lia|auto].
Qed.

Lemma elem_of_plan t (norm corr : option (list string)) :
  t ∈ plan norm corr →
  t = Base
  ∨ t = Variant Norm "joint"
  ∨ (∃ which, t = Variant Norm which ∧ which ≠ "join")
  ∨ (∃ which, t = Variant Corr which).
Proof.
  unfold plan. rewrite !elem_of_app, list_elem_of_singleton.
  intros [->|[Hn|Hc]]; [by left|..].
  - destruct norm as [norm|]; [|by apply elem_of_nil in Hn].
    unfold plan_norm in Hn. apply elem_of_app in Hn as [Hj|Hl].
    + case_bool_decide; [|by apply elem_of_nil in Hj].
      apply list_elem_of_singleton in Hj. auto.
    + apply elem_of_norm_loop in Hl as (which & -> & _ & ?). eauto 6.
  - destruct corr as [corr|]; [|by apply elem_of_nil in Hc].
    apply list_elem_of_fmap in Hc as (which & -> & _). eauto 6.
Qed.

Lemma norm_loop_skip norm :
  norm_loop (filter (λ which, which ≠ "join") norm) = norm_loop norm.
Proof.
  induction norm as [|which norm IH]; [done|]. rewrite filter_cons. simpl.
  case_bool_decide as Hj.
  - by rewrite decide_False by (by intros ?).
  - rewrite decide_True by done. simpl. rewrite bool_decide_eq_false_2 by done.
    by rewrite IH.
Qed.

Lemma existsb_needs_entropy_false (todo : list task) :
  (∀ which, Variant Norm which ∈ todo → which = "joint") →
  existsb needs_entropy todo = false.
Proof.
  intros H. apply not_true_is_false. intros (t & Hin & Ht)%existsb_exists.
  apply list_elem_of_In in Hin. destruct t as [|[] which]; simpl in Ht; try done.
  rewrite (H _ Hin) in Ht. done.
Qed.

Lemma filter_needs_entropy_nil (todo : list task) :
  existsb needs_entropy todo = false → List.filter needs_entropy todo = [].
Proof.
  induction todo as [|t todo IH]; [done|]. simpl.
  destruct (needs_entropy t); [done|]. exact IH.
Qed.

Lemma suffix_of_empty t : suffix_of t = "" ↔ t = Base.
Proof.
  destruct t as [|w which]; simpl; [done|].
  case_bool_decide; [done|]. by destruct w.
Qed.

(** [todo] starts with the base task and has no other base task. *)
Lemma plan_shape (norm corr : option (list string)) :
  ∃ rest, plan norm corr = Base :: rest ∧ Forall (λ t, t ≠ Base) rest.
Proof.
  eexists. split; [reflexivity|]. apply Forall_app. split.
  - destruct norm as [norm|]; [|constructor]. unfold plan_norm.
    apply Forall_app. split; [case_bool_decide; by repeat constructor|].
    apply Forall_forall. by intros t (which & -> & _)%elem_of_norm_loop.
  - destruct corr as [corr|]; [|constructor]. unfold plan_corr.
    apply Forall_forall. by intros t (which & -> & _)%list_elem_of_fmap.
Qed.

Lemma count_base_suffix (prefix : string) (rest : list task) :
  Forall (λ t, t ≠ Base) rest →
  length (filter (λ p, p = prefix +:+ ".txt")
            (map (λ t, prefix +:+ suffix_of t +:+ ".txt") rest)) = 0%nat.
Proof.
  induction 1 as [|t rest Ht _ IH]; [done|]. simpl. rewrite filter_cons.
  rewrite decide_False; [done|]. intros H.
  apply (inj (String.append prefix)) in H.
  apply (append_inv_tail _ "") in H. by apply suffix_of_empty in H.
Qed.

End PlannerLemmas.

(** ** Traces and observations *)

Section TraceLemmas.

Context {Alignment Matrix Entropy : Type}.

Abbreviation entry := (entry Alignment Matrix Entropy).
Abbreviation M := (M Alignment Matrix Entropy).

Implicit Types tr : list entry.

Lemma write_paths_app tr tr' :
  write_paths (tr ++ tr') = (write_paths tr ++ write_paths tr')%list.
Proof. apply omap_app. Qed.

Lemma written_paths_app tr tr' :
  written_paths (tr ++ tr') = (written_paths tr ++ written_paths tr')%list.
Proof. apply omap_app. Qed.

Lemma savefig_paths_app tr tr' :
  savefig_paths (tr ++ tr') = (savefig_paths tr ++ savefig_paths tr')%list.
Proof. apply omap_app. Qed.

Lemma entropy_calls_app tr tr' :
  entropy_calls (tr ++ tr') = (entropy_calls tr + entropy_calls tr')%nat.
Proof. unfold entropy_calls. by rewrite List.filter_app, length_app. Qed.

Lemma joint_builds_app tr tr' :
  joint_builds (tr ++ tr') = (joint_builds tr + joint_builds tr')%nat.
Proof. unfold joint_builds. by rewrite List.filter_app, length_app. Qed.

Lemma warnings_app tr tr' :
  warnings (tr ++ tr') = (warnings tr + warnings tr')%nat.
Proof. unfold warnings. by rewrite List.filter_app, length_app. Qed.

Lemma before_entropy_app tr tr' :
  entropy_calls tr = 0%nat →
  before_entropy (tr ++ tr') = (tr ++ before_entropy tr')%list.
Proof.
  unfold entropy_calls. induction tr as [|e tr IH]; [done|]. simpl.
  destruct (is_entropy_call e); [done|]. intros H. by rewrite IH.
Qed.

Lemma before_entropy_all tr :
  entropy_calls tr = 0%nat → before_entropy tr = tr.
Proof.
  intros H. rewrite <-(app_nil_r tr) at 1.
  rewrite before_entropy_app by done. simpl. by rewrite app_nil_r.
Qed.

Lemma bind_ok {A B} (m : M A) (k : A → M B) s tr s1 a :
  m s = (tr, s1, Ok a) →
  bind m k s = ((tr ++ trace_of (k a s1))%list, settings_of (k a s1),
                outcome_of (k a s1)).
Proof.
  intros Hm. unfold bind, trace_of, settings_of, outcome_of. rewrite Hm.
  by destruct (k a s1) as [[??]?].
Qed.

Lemma bind_raise {A B} (m : M A) (k : A → M B) s tr s1 e :
  m s = (tr, s1, Raise e) → bind m k s = (tr, s1, Raise e).
Proof. intros Hm. unfold bind. by rewrite Hm. Qed.

End TraceLemmas.

Create Rewrite HintDb obs.
#[export] Hint Rewrite @write_paths_app @written_paths_app @savefig_paths_app
  @entropy_calls_app @joint_builds_app @warnings_app : obs.

(** ** One task *)

Section TaskLemmas.

Context {Alignment Matrix Entropy : Type}.
Context (env : Collaborators Alignment Matrix Entropy).
Context (kwargs : Kwargs).

Abbreviation locals := (locals Alignment Matrix Entropy).

Ltac crush :=
  unfold select_matrix, get_entropy, maybe_save_figure, save_figure, render,
    try_except_ImportError, not_none, bind, call, ret, raise, set_setting;
  intros; repeat (case_match; simplify_eq/=); try done.

(** The branch taken for a task: what it calls, and what it leaves in the
    local variables. *)
Lemma select_matrix_spec t (l : locals) s tr s' r :
  select_matrix env kwargs t l s = (tr, s', r) →
  s' = s
  ∧ write_paths tr = [] ∧ written_paths tr = [] ∧ savefig_paths tr = []
  ∧ warnings tr = 0%nat
  ∧ joint_builds tr = (if is_joint t then 1 else 0)%nat
  ∧ entropy_calls tr
    = (if needs_entropy t
       then match l_entropy l with Some _ => 0 | None => 1 end
       else 0)%nat.
Proof. destruct t as [|[] which]; crush. Qed.

Lemma select_matrix_ok t (l : locals) s tr s' l1 matrix suffix :
  select_matrix env kwargs t l s = (tr, s', Ok (l1, matrix, suffix)) →
  suffix = suffix_of t
  ∧ same_inputs l l1
  ∧ (if needs_entropy t
     then match l_entropy l with
          | Some _ => l_entropy l1 = l_entropy l
          | None => calcShannonEntropy env (l_msa l) kwargs = Ok (l_entropy l1)
          end
     else l_entropy l1 = l_entropy l).
Proof.
  destruct t as [|[] which]; crush; unfold same_inputs; simpl; eauto.
Qed.

Lemma render_spec (l : locals) matrix suffix s tr s' r :
  render env kwargs l matrix suffix s = (tr, s', r) →
  s' = <["auto_show" := SBool false]> s
  ∧ write_paths tr = [] ∧ written_paths tr = []
  ∧ warnings tr = 0%nat ∧ joint_builds tr = 0%nat ∧ entropy_calls tr = 0%nat
  ∧ Forall (is_figure_path kwargs l suffix) (savefig_paths tr).
Proof.
  crush; repeat split; try done;
    repeat constructor; unfold is_figure_path; eauto.
Qed.

Lemma maybe_save_figure_off (l : locals) matrix suffix s :
  truthy (kwargs_get (kw_figcoevol kwargs) None) = false →
  maybe_save_figure env kwargs l matrix suffix s = ([], s, Ok tt).
Proof. unfold maybe_save_figure. by intros ->. Qed.

Lemma maybe_save_figure_unavailable (l : locals) matrix suffix s :
  truthy (kwargs_get (kw_figcoevol kwargs) None) = true →
  import_pyplot env = Raise ImportError →
  maybe_save_figure env kwargs l matrix suffix s
  = ([(ImportPyplot, Some ImportError);
      (LoggerWarn MatplotlibNotImported, None)], s, Ok tt).
Proof.
  unfold maybe_save_figure, save_figure, try_except_ImportError, call.
  by intros -> ->.
Qed.

Lemma maybe_save_figure_available (l : locals) matrix suffix s u :
  truthy (kwargs_get (kw_figcoevol kwargs) None) = true →
  import_pyplot env = Ok u →
  maybe_save_figure env kwargs l matrix suffix s
  = ((ImportPyplot, None) :: trace_of (render env kwargs l matrix suffix s),
     settings_of (render env kwargs l matrix suffix s),
     outcome_of (render env kwargs l matrix suffix s)).
Proof.
  unfold maybe_save_figure, save_figure, try_except_ImportError, call.
  intros -> ->. simpl.
  by destruct (render env kwargs l matrix suffix s) as [[??]?].
Qed.

Lemma maybe_save_figure_spec (l : locals) matrix suffix s tr s' r :
  maybe_save_figure env kwargs l matrix suffix s = (tr, s', r) →
  (s' = s ∨ s' = <["auto_show" := SBool false]> s)
  ∧ write_paths tr = [] ∧ written_paths tr = []
  ∧ joint_builds tr = 0%nat ∧ entropy_calls tr = 0%nat
  ∧ Forall (is_figure_path kwargs l suffix) (savefig_paths tr).
Proof.
  destruct (truthy (kwargs_get (kw_figcoevol kwargs) None)) eqn:Hfig.
  - destruct (import_pyplot env) as [u|e] eqn:Himp.
    + rewrite (maybe_save_figure_available _ _ _ _ u) by done.
      destruct (render env kwargs l matrix suffix s) as [[tr0 s0] r0] eqn:Hr.
      apply render_spec in Hr as (-> & ? & ? & ? & ? & ? & ?).
      intros [= <- <- <-]. unfold write_paths, written_paths, joint_builds,
        entropy_calls, savefig_paths in *. simpl. eauto 10.
    + unfold maybe_save_figure, save_figure, try_except_ImportError, call.
      rewrite Hfig, Himp. destruct e; intros [= <- <- <-]; simpl; eauto 10.
  - rewrite maybe_save_figure_off by done. intros [= <- <- <-]; eauto 10.
Qed.

(** The loop body, step by step. *)
Lemma run_task_unfold t (l : locals) s :
  run_task env kwargs t l s =
  match select_matrix env kwargs t l s with
  | (tr1, s1, Raise e) => (tr1, s1, Raise e)
  | (tr1, s1, Ok (l1, matrix, suffix)) =>
      let format := kwargs_get (kw_numformat kwargs) (Some "%12g") in
      let filename := l_prefix l1 +:+ suffix +:+ ".txt" in
      match writeArray env filename matrix format with
      | Raise e =>
          ((tr1 ++ [(WriteArray filename matrix format, Some e)])%list, s1,
           Raise e)
      | Ok _ =>
          match maybe_save_figure env kwargs l1 matrix suffix s1 with
          | (tr3, s3, Ok _) =>
              ((tr1 ++ (WriteArray filename matrix format, None) :: tr3)%list,
               s3, Ok l1)
          | (tr3, s3, Raise e) =>
              ((tr1 ++ (WriteArray filename matrix format, None) :: tr3)%list,
               s3, Raise e)
          end
      end
  end.
Proof.
  unfold run_task, bind at 1.
  destruct (select_matrix env kwargs t l s) as [[tr1 s1] [[[l1 matrix] suffix]|e]];
    [|done].
  unfold bind, call, ret. simpl.
  destruct (writeArray env _ matrix _) as [u|e]; simpl; [|done].
  destruct (maybe_save_figure env kwargs l1 matrix suffix s1) as [[tr3 s3] [u'|e]];
    simpl; by rewrite ?app_nil_r.
Qed.

(** What one iteration of the loop does. *)
Lemma run_task_spec t (l : locals) s tr s' r :
  run_task env kwargs t l s = (tr, s', r) →
  (s' = s ∨ s' = <["auto_show" := SBool false]> s)
  ∧ joint_builds tr = (if is_joint t then 1 else 0)%nat
  ∧ entropy_calls tr
    = (if needs_entropy t
       then match l_entropy l with Some _ => 0 | None => 1 end
       else 0)%nat
  ∧ (write_paths tr = [] ∨ write_paths tr = [text_path l t])
  ∧ (written_paths tr = [] ∨ written_paths tr = [text_path l t])
  ∧ Forall (is_figure_path kwargs l (suffix_of t)) (savefig_paths tr).
Proof.
  rewrite run_task_unfold.
  destruct (select_matrix env kwargs t l s)
    as [[tr1 s1] [[[l1 matrix] suffix]|e]] eqn:Hsel.
  - pose proof (select_matrix_spec _ _ _ _ _ _ Hsel)
      as (-> & Hw & Hw' & Hf & _ & Hj & He).
    apply select_matrix_ok in Hsel as (-> & (_ & _ & Hp) & _).
    simpl. destruct (writeArray env _ matrix _) as [u|e].
    + destruct (maybe_save_figure env kwargs l1 matrix (suffix_of t) s)
        as [[tr3 s3] r3] eqn:Hfig.
      apply maybe_save_figure_spec in Hfig as (Hs & Hw3 & Hw3' & Hj3 & He3 & Hf3).
      unfold is_figure_path in *. rewrite Hp in *.
      destruct r3; intros [= <- <- <-]; autorewrite with obs;
        rewrite Hw, Hw', Hf, Hj, He; unfold text_path;
        change (?a :: ?b) with ([a] ++ b)%list; autorewrite with obs;
        rewrite Hw3, Hw3', Hj3, He3;
        unfold joint_builds, entropy_calls; simpl;
        (repeat split; [done|lia|lia|by right|by right|done]).
    + intros [= <- <- <-]; autorewrite with obs.
      rewrite Hw, Hw', Hf, Hj, He, Hp.
      unfold text_path, joint_builds, entropy_calls. simpl.
      repeat split; [by left|lia|lia|by right|by left|done].
  - apply select_matrix_spec in Hsel as (-> & Hw & Hw' & Hf & _ & Hj & He).
    intros [= <- <- <-]. rewrite Hw, Hw', Hf, Hj, He.
    repeat split; [by left|by left|by left|done].
Qed.

Lemma run_task_ok t (l : locals) s tr s' l' :
  run_task env kwargs t l s = (tr, s', Ok l') →
  same_inputs l l'
  ∧ write_paths tr = [text_path l t]
  ∧ written_paths tr = [text_path l t]
  ∧ (if needs_entropy t
     then match l_entropy l with
          | Some _ => l_entropy l' = l_entropy l
          | None => calcShannonEntropy env (l_msa l) kwargs = Ok (l_entropy l')
          end
     else l_entropy l' = l_entropy l).
Proof.
  rewrite run_task_unfold.
  destruct (select_matrix env kwargs t l s)
    as [[tr1 s1] [[[l1 matrix] suffix]|e]] eqn:Hsel; [|done].
  pose proof (select_matrix_spec _ _ _ _ _ _ Hsel) as (-> & Hw & Hw' & _).
  apply select_matrix_ok in Hsel as (-> & Hin & Hent).
  simpl. destruct (writeArray env _ matrix _) as [u|e]; [|done].
  destruct (maybe_save_figure env kwargs l1 matrix (suffix_of t) s)
    as [[tr3 s3] [u'|e]] eqn:Hfig; [|done].
  apply maybe_save_figure_spec in Hfig as (_ & Hw3 & Hw3' & _).
  intros [= <- <- <-].
  change (?a :: tr3) with ([a] ++ tr3)%list. autorewrite with obs.
  rewrite Hw, Hw', Hw3, Hw3'. unfold text_path.
  pose proof Hin as (_ & _ & ->). done.
Qed.

(** A task that reads the entropy with an empty cache logs its message and
    calls [calcShannonEntropy] next. *)
Lemma run_task_needs t (l : locals) s :
  needs_entropy t = true →
  l_entropy l = None →
  ∃ which o rest,
    t = Variant Norm which ∧ which ≠ "joint"
    ∧ trace_of (run_task env kwargs t l s)
      = (LoggerInfo (ApplyingNormalization which), None)
        :: (CalcShannonEntropy (l_msa l), o) :: rest.
Proof.
  intros Hneeds Hnone. destruct t as [|[] which]; simpl in Hneeds; try done.
  apply negb_true_iff, bool_decide_eq_false in Hneeds.
  exists which. rewrite run_task_unfold.
  assert (∃ o rest,
            trace_of (select_matrix env kwargs (Variant Norm which) l s)
            = (LoggerInfo (ApplyingNormalization which), None)
              :: (CalcShannonEntropy (l_msa l), o) :: rest) as (o & rest & Hsel).
  { unfold select_matrix, get_entropy, bind, call, ret, trace_of.
    rewrite bool_decide_eq_false_2, Hnone by done. simpl.
    destruct (calcShannonEntropy env (l_msa l) kwargs) as [entropy|e]; simpl;
      [|by eexists _, _].
    destruct (applyMutinfoNorm env (l_mutinfo l) entropy which); simpl;
      by eexists _, _. }
  destruct (select_matrix env kwargs (Variant Norm which) l s)
    as [[tr1 s1] [[[l1 matrix] suffix]|e]]; unfold trace_of in *;
    simpl in Hsel; subst tr1.
  - cbv zeta. destruct (writeArray env _ matrix _) as [u|e];
      [destruct (maybe_save_figure env kwargs l1 matrix suffix s1)
         as [[tr3 s3] [u'|e]]|]; simpl; by eexists _, _.
  - simpl. by eexists _, _.
Qed.

Lemma select_matrix_total t (l : locals) s :
  no_fatal_error env kwargs →
  ∃ tr l1 matrix,
    select_matrix env kwargs t l s = (tr, s, Ok (l1, matrix, suffix_of t)).
Proof.
  intros (_ & Hbuild & Hent & Hnorm & Hcorr & _).
  destruct t as [|w which]; simpl; [by eexists _, _, _|].
  case_bool_decide.
  - destruct (Hbuild (l_msa l) true) as [m Hm].
    unfold bind, call, ret. rewrite Hm. by eexists _, _, _.
  - destruct w.
    + unfold get_entropy. destruct (l_entropy l) as [entropy|].
      * destruct (Hnorm (l_mutinfo l) (Some entropy) which) as [m Hm].
        unfold bind, call, ret. simpl. rewrite Hm. by eexists _, _, _.
      * destruct (Hent (l_msa l)) as [entropy Hentropy].
        destruct (Hnorm (l_mutinfo l) entropy which) as [m Hm].
        unfold bind, call, ret. simpl. rewrite Hentropy. simpl. rewrite Hm.
        by eexists _, _, _.
    + destruct (Hcorr (l_mutinfo l) which) as [m Hm].
      unfold bind, call, ret. rewrite Hm. by eexists _, _, _.
Qed.

(** Without a plotting backend a task still writes its text file, warns,
    and returns. *)
Lemma run_task_unavailable t (l : locals) s :
  truthy (kwargs_get (kw_figcoevol kwargs) None) = true →
  import_pyplot env = Raise ImportError →
  no_fatal_error env kwargs →
  ∃ tr l1,
    run_task env kwargs t l s = (tr, s, Ok l1)
    ∧ warnings tr = 1%nat ∧ savefig_paths tr = [].
Proof.
  intros Hfig Himp Hok. rewrite run_task_unfold.
  destruct (select_matrix_total t l s Hok) as (tr1 & l1 & matrix & Hsel).
  rewrite Hsel. cbv zeta.
  apply select_matrix_spec in Hsel as (_ & _ & _ & Hf & Hwarn & _).
  destruct Hok as (_ & _ & _ & _ & _ & Hwrite).
  destruct (Hwrite (l_prefix l1 +:+ suffix_of t +:+ ".txt") matrix
              (kwargs_get (kw_numformat kwargs) (Some "%12g"))) as [[] ->].
  rewrite maybe_save_figure_unavailable by done.
  eexists _, _. split; [done|].
  change (?a :: ?b) with ([a] ++ b)%list. autorewrite with obs.
  rewrite Hwarn, Hf. done.
Qed.

(** With a backend, a failure while rendering leaves the task by the
    exception: nothing catches it. *)
Lemma run_task_render_raises t (l : locals) s u tr1 s1 l1 matrix suffix
    tr2 s2 e :
  truthy (kwargs_get (kw_figcoevol kwargs) None) = true →
  import_pyplot env = Ok u →
  select_matrix env kwargs t l s = (tr1, s1, Ok (l1, matrix, suffix)) →
  is_ok (writeArray env (l_prefix l1 +:+ suffix +:+ ".txt") matrix
           (kwargs_get (kw_numformat kwargs) (Some "%12g"))) →
  render env kwargs l1 matrix suffix s1 = (tr2, s2, Raise e) →
  run_task env kwargs t l s
  = ((tr1
      ++ (WriteArray (l_prefix l1 +:+ suffix +:+ ".txt") matrix
            (kwargs_get (kw_numformat kwargs) (Some "%12g")), None)
         :: (ImportPyplot, None) :: tr2)%list,
     s2, Raise e).
Proof.
  intros Hfig Himp Hsel [[] Hwrite] Hrender.
  rewrite run_task_unfold, Hsel. cbv zeta. rewrite Hwrite.
  rewrite (maybe_save_figure_available _ _ _ _ u) by done.
  by rewrite Hrender.
Qed.

(** [prody.SETTINGS] is assigned exactly when a figure is rendered. *)
Lemma maybe_save_figure_settings (l : locals) matrix suffix s tr s' r :
  maybe_save_figure env kwargs l matrix suffix s = (tr, s', r) →
  s' = if renders_figures env kwargs
       then <["auto_show" := SBool false]> s else s.
Proof.
  unfold renders_figures.
  destruct (truthy (kwargs_get (kw_figcoevol kwargs) None)) eqn:Hfig.
  - destruct (import_pyplot env) as [u|e] eqn:Himp.
    + rewrite (maybe_save_figure_available _ _ _ _ u) by done.
      destruct (render env kwargs l matrix suffix s) as [[tr0 s0] r0] eqn:Hr.
      apply render_spec in Hr as (-> & _). by intros [= <- <- <-].
    + unfold maybe_save_figure, save_figure, try_except_ImportError, call.
      rewrite Hfig, Himp. by destruct e; intros [= <- <- <-].
  - rewrite maybe_save_figure_off by done. by intros [= <- <- <-].
Qed.

Lemma run_task_settings t (l : locals) s tr s' r :
  run_task env kwargs t l s = (tr, s', r) →
  (s' = s
   ∨ renders_figures env kwargs = true
     ∧ s' = <["auto_show" := SBool false]> s)
  ∧ (∀ l', r = Ok l' → renders_figures env kwargs = true →
           s' = <["auto_show" := SBool false]> s).
Proof.
  rewrite run_task_unfold.
  destruct (select_matrix env kwargs t l s)
    as [[tr1 s1] [[[l1 matrix] suffix]|e]] eqn:Hsel.
  - apply select_matrix_spec in Hsel as (-> & _). cbv zeta.
    destruct (writeArray env _ matrix _) as [u|e].
    + destruct (maybe_save_figure env kwargs l1 matrix suffix s)
        as [[tr3 s3] r3] eqn:Hfig.
      apply maybe_save_figure_settings in Hfig as ->.
      destruct (renders_figures env kwargs), r3; intros [= <- <- <-];
        split; auto; by intros ? [= <-].
    + intros [= <- <- <-]. split; auto. by intros ? [=].
  - apply select_matrix_spec in Hsel as (-> & _).
    intros [= <- <- <-]. split; auto. by intros ? [=].
Qed.

End TaskLemmas.

(** ** The loop *)

Section LoopLemmas.

Context {Alignment Matrix Entropy : Type}.
Context (env : Collaborators Alignment Matrix Entropy).
Context (kwargs : Kwargs).

Abbreviation locals := (locals Alignment Matrix Entropy).

Lemma text_path_same (l l' : locals) t :
  same_inputs l l' → text_path l' t = text_path l t.
Proof. intros (_ & _ & Hp). unfold text_path. by rewrite Hp. Qed.

Lemma same_inputs_trans (l1 l2 l3 : locals) :
  same_inputs l1 l2 → same_inputs l2 l3 → same_inputs l1 l3.
Proof. unfold same_inputs. intuition congruence. Qed.

Lemma run_todo_cons t todo (l : locals) s :
  run_todo env kwargs (t :: todo) l s =
  match run_task env kwargs t l s with
  | (tr, s1, Ok l1) =>
      ((tr ++ trace_of (run_todo env kwargs todo l1 s1))%list,
       settings_of (run_todo env kwargs todo l1 s1),
       outcome_of (run_todo env kwargs todo l1 s1))
  | (tr, s1, Raise e) => (tr, s1, Raise e)
  end.
Proof.
  simpl. destruct (run_task env kwargs t l s) as [[tr s1] [l1|e]] eqn:Ht.
  - by rewrite (bind_ok _ _ _ _ _ _ Ht).
  - by rewrite (bind_raise _ _ _ _ _ _ Ht).
Qed.

(** A task that raises ends the loop: the tasks after it leave no trace. *)
Lemma run_todo_raise pre t post (l l0 : locals) s tr0 s0 tr s1 e :
  run_todo env kwargs pre l s = (tr0, s0, Ok l0) →
  run_task env kwargs t l0 s0 = (tr, s1, Raise e) →
  run_todo env kwargs (pre ++ t :: post) l s = ((tr0 ++ tr)%list, s1, Raise e).
Proof.
  revert l s tr0. induction pre as [|t' pre IH]; intros l s tr0 Hpre Ht.
  - simpl in Hpre. injection Hpre as <- <- <-.
    change ([] ++ t :: post)%list with (t :: post).
    by rewrite run_todo_cons, Ht.
  - change ((t' :: pre) ++ t :: post)%list with (t' :: (pre ++ t :: post)).
    rewrite run_todo_cons in Hpre |- *.
    destruct (run_task env kwargs t' l s) as [[tr' s'] [l'|e']]; [|done].
    destruct (run_todo env kwargs pre l' s') as [[tr'' s''] r''] eqn:Hrest.
    unfold trace_of, settings_of, outcome_of in Hpre. simpl in Hpre.
    injection Hpre as <- <- ->.
    rewrite (IH _ _ _ Hrest Ht). unfold trace_of, settings_of, outcome_of.
    simpl. by rewrite app_assoc.
Qed.

(** A loop that completes wrote one text file per task, in order, and
    computed the joint matrix once per task of the ['joint'] branch. *)
Lemma run_todo_ok todo (l : locals) s tr s' l' :
  run_todo env kwargs todo l s = (tr, s', Ok l') →
  same_inputs l l'
  ∧ write_paths tr = map (text_path l) todo
  ∧ written_paths tr = map (text_path l) todo
  ∧ joint_builds tr = length (List.filter is_joint todo).
Proof.
  revert l s tr. induction todo as [|t todo IH]; intros l s tr.
  - intros [= <- <- <-]. by unfold same_inputs.
  - rewrite run_todo_cons.
    destruct (run_task env kwargs t l s) as [[tr1 s1] [l1|e]] eqn:Ht; [|done].
    destruct (run_todo env kwargs todo l1 s1) as [[tr2 s2] r2] eqn:Hrest.
    unfold trace_of, settings_of, outcome_of. simpl. intros [= <- <- ->].
    apply IH in Hrest as (Hin2 & Hw2 & Hw2' & Hj2).
    pose proof (run_task_spec _ _ _ _ _ _ _ _ Ht) as (_ & Hj1 & _).
    apply run_task_ok in Ht as (Hin1 & Hw1 & Hw1' & _).
    autorewrite with obs. rewrite Hw1, Hw1', Hw2, Hw2', Hj1, Hj2.
    split; [by eapply same_inputs_trans|].
    rewrite (map_ext _ _ (λ t', text_path_same _ _ t' Hin1)).
    repeat split; try done. by destruct (is_joint t).
Qed.

Lemma settings_after_trans s1 s2 s3 :
  settings_after s1 s2 → settings_after s2 s3 → settings_after s1 s3.
Proof.
  unfold settings_after. intros [->| ->] [->| ->]; auto.
  right. by rewrite insert_insert_eq.
Qed.

(** What the loop does, whether it completes or raises. *)
Lemma run_todo_spec todo (l : locals) s tr s' r :
  run_todo env kwargs todo l s = (tr, s', r) →
  settings_after s s'
  ∧ write_paths tr `prefix_of` map (text_path l) todo
  ∧ Forall (λ p, ∃ t, t ∈ todo ∧ is_figure_path kwargs l (suffix_of t) p)
      (savefig_paths tr)
  ∧ (entropy_calls tr
     ≤ entropy_calls_of (calcShannonEntropy env (l_msa l) kwargs)
         (l_entropy l) todo)%nat.
Proof.
  revert l s tr s' r. induction todo as [|t todo IH]; intros l s tr s' r.
  - intros [= <- <- <-]. repeat split; try done; [by left|].
    unfold entropy_calls. simpl. lia.
  - rewrite run_todo_cons.
    destruct (run_task env kwargs t l s) as [[tr1 s1] [l1|e]] eqn:Ht.
    + destruct (run_todo env kwargs todo l1 s1) as [[tr2 s2] r2] eqn:Hrest.
      unfold trace_of, settings_of, outcome_of. simpl. intros [= <- <- <-].
      apply IH in Hrest as (Hs2 & Hw2 & Hf2 & He2).
      pose proof (run_task_spec _ _ _ _ _ _ _ _ Ht)
        as (Hs1 & _ & He1 & _ & _ & Hf1).
      apply run_task_ok in Ht as (Hin1 & Hw1 & _ & Hent).
      autorewrite with obs. rewrite Hw1, He1.
      rewrite (map_ext _ _ (λ t', text_path_same _ _ t' Hin1)) in Hw2.
      split; [by eapply settings_after_trans|].
      split; [by apply prefix_cons|].
      split.
      * apply Forall_app. split.
        -- eapply Forall_impl; [exact Hf1|]. intros p Hp. exists t.
           split; [by left|done].
        -- eapply Forall_impl; [exact Hf2|]. intros p (t' & Hin & f & ? & ->).
           exists t'. split; [by right|]. exists f. split; [done|].
           by destruct Hin1 as (_ & _ & ->).
      * destruct Hin1 as (Hmsa & _ & _). rewrite Hmsa in He2.
        unfold entropy_calls_of in *. simpl.
        destruct (needs_entropy t); simpl;
          destruct (l_entropy l) as [x|] eqn:Hl;
          try (rewrite Hent, ?Hl in He2; simpl in He2; lia).
        rewrite Hent. rewrite Hent in He2.
        destruct (l_entropy l1); [|lia].
        destruct (existsb needs_entropy todo); lia.
    + intros [= <- <- <-].
      apply run_task_spec in Ht as (Hs1 & _ & He1 & Hw1 & _ & Hf1).
      split; [done|]. split.
      { destruct Hw1 as [-> | ->]; [apply prefix_nil|].
        apply prefix_cons, prefix_nil. }
      split.
      { eapply Forall_impl; [exact Hf1|]. intros p Hp. exists t.
        split; [by left|done]. }
      rewrite He1. unfold entropy_calls_of. simpl.
      destruct (needs_entropy t); simpl; [|lia].
      destruct (l_entropy l); [lia|].
      destruct (calcShannonEntropy env (l_msa l) kwargs) as [[?|]|?];
        simpl; lia.
Qed.

(** A loop that completes called [calcShannonEntropy] as often as
    [entropy_calls_of] tells. *)
Lemma run_todo_entropy_ok todo (l : locals) s tr s' l' :
  run_todo env kwargs todo l s = (tr, s', Ok l') →
  entropy_calls tr
  = entropy_calls_of (calcShannonEntropy env (l_msa l) kwargs) (l_entropy l)
      todo.
Proof.
  revert l s tr. induction todo as [|t todo IH]; intros l s tr.
  - intros [= <- <- <-]. unfold entropy_calls_of.
    destruct (l_entropy l); [done|].
    by destruct (calcShannonEntropy env (l_msa l) kwargs) as [[?|]|?].
  - rewrite run_todo_cons.
    destruct (run_task env kwargs t l s) as [[tr1 s1] [l1|e]] eqn:Ht; [|done].
    destruct (run_todo env kwargs todo l1 s1) as [[tr2 s2] r2] eqn:Hrest.
    unfold trace_of, settings_of, outcome_of. simpl. intros [= <- <- ->].
    apply IH in Hrest as He2.
    pose proof (run_task_spec _ _ _ _ _ _ _ _ Ht) as (_ & _ & He1 & _).
    apply run_task_ok in Ht as ((Hmsa & _ & _) & _ & _ & Hent).
    autorewrite with obs. rewrite He1, He2, Hmsa.
    unfold entropy_calls_of. simpl.
    destruct (needs_entropy t); simpl;
      destruct (l_entropy l) as [x|] eqn:Hl;
      try (by rewrite Hent, ?Hl).
    rewrite Hent. destruct (l_entropy l1); [|done].
    by destruct (existsb needs_entropy todo).
Qed.

(** The cache after a completed loop: unchanged, or filled from empty; and
    unchanged when no task reads the entropy. *)
Lemma run_todo_entropy_state todo (l : locals) s tr s' l' :
  run_todo env kwargs todo l s = (tr, s', Ok l') →
  (l_entropy l' = l_entropy l ∨ l_entropy l = None ∧ is_Some (l_entropy l'))
  ∧ (existsb needs_entropy todo = false → l_entropy l' = l_entropy l).
Proof.
  revert l s tr. induction todo as [|t todo IH]; intros l s tr.
  - intros [= <- <- <-]. by split; [left|].
  - rewrite run_todo_cons.
    destruct (run_task env kwargs t l s) as [[tr1 s1] [l1|e]] eqn:Ht; [|done].
    destruct (run_todo env kwargs todo l1 s1) as [[tr2 s2] r2] eqn:Hrest.
    unfold trace_of, settings_of, outcome_of. simpl. intros [= <- <- ->].
    apply IH in Hrest as [Hstate Hsame].
    apply run_task_ok in Ht as (_ & _ & _ & Hent).
    destruct (needs_entropy t); simpl.
    + split; [|done]. destruct (l_entropy l) as [x|] eqn:Hl.
      * rewrite Hent in Hstate. destruct Hstate as [->|[[=] _]]. by left.
      * destruct Hstate as [Heq|[_ Hsome]]; [|by right].
        destruct (l_entropy l') as [y|]; [right; by split|].
        left. done.
    + rewrite Hent in Hstate, Hsame. done.
Qed.

(** Where the first call of [calcShannonEntropy] sits in the trace of the
    loop: started with an empty cache, the loop has by then run the tasks
    before the first one that reads the entropy, written their text files
    and nothing else, and just logged the message of that task. *)
Lemma run_todo_before_entropy todo (l : locals) s :
  l_entropy l = None →
  entropy_calls (trace_of (run_todo env kwargs todo l s)) ≠ 0%nat →
  ∃ pre which post,
    todo = (pre ++ Variant Norm which :: post)%list
    ∧ which ≠ "joint"
    ∧ existsb needs_entropy pre = false
    ∧ write_paths (before_entropy (trace_of (run_todo env kwargs todo l s)))
      = map (text_path l) pre
    ∧ last (before_entropy (trace_of (run_todo env kwargs todo l s)))
      = Some (LoggerInfo (ApplyingNormalization which), None).
Proof.
  revert l s. induction todo as [|t todo IH]; intros l s Hnone Hcalls.
  { by destruct Hcalls. }
  destruct (needs_entropy t) eqn:Hneeds.
  - destruct (run_task_needs env kwargs t l s Hneeds Hnone)
      as (which & o & rest & -> & Hwhich & Htrace).
    exists [], which, todo. split; [done|]. split; [done|]. split; [done|].
    rewrite run_todo_cons.
    destruct (run_task env kwargs (Variant Norm which) l s)
      as [[tr1 s1] [l1|e]]; unfold trace_of in *; simpl in *; subst tr1;
      by simpl.
  - rewrite run_todo_cons in Hcalls |- *.
    destruct (run_task env kwargs t l s) as [[tr1 s1] [l1|e]] eqn:Ht.
    + pose proof (run_task_spec _ _ _ _ _ _ _ _ Ht) as (_ & _ & He1 & _).
      rewrite Hneeds in He1.
      apply run_task_ok in Ht as (Hin & Hw1 & _ & Hent).
      rewrite Hneeds in Hent.
      unfold trace_of in *. simpl in *.
      rewrite entropy_calls_app, He1 in Hcalls.
      destruct (IH l1 s1)
        as (pre & which & post & -> & Hwhich & Hpre & Hw & Hlast);
        [congruence|done|].
      exists (t :: pre), which, post. split; [done|]. split; [done|].
      split; [by simpl; rewrite Hneeds|].
      rewrite before_entropy_app by done. split.
      * rewrite write_paths_app, Hw1, Hw. simpl. f_equal.
        apply map_ext. intros t'. by apply text_path_same.
      * rewrite last_app, Hlast. done.
    + apply run_task_spec in Ht as (_ & _ & He1 & _).
      rewrite Hneeds in He1. by destruct Hcalls.
Qed.

Lemma run_todo_unavailable todo (l : locals) s :
  truthy (kwargs_get (kw_figcoevol kwargs) None) = true →
  import_pyplot env = Raise ImportError →
  no_fatal_error env kwargs →
  ∃ tr l',
    run_todo env kwargs todo l s = (tr, s, Ok l')
    ∧ warnings tr = length todo ∧ savefig_paths tr = [].
Proof.
  intros Hfig Himp Hok. revert l.
  induction todo as [|t todo IH]; intros l; [by eexists _, _|].
  rewrite run_todo_cons.
  destruct (run_task_unavailable env kwargs t l s Hfig Himp Hok)
    as (tr1 & l1 & -> & Hwarn1 & Hf1).
  destruct (IH l1) as (tr2 & l' & -> & Hwarn2 & Hf2).
  eexists _, _. split; [done|]. unfold trace_of. simpl.
  autorewrite with obs. by rewrite Hwarn1, Hwarn2, Hf1, Hf2.
Qed.

Lemma run_todo_settings todo (l : locals) s tr s' r :
  run_todo env kwargs todo l s = (tr, s', r) →
  (s' = s
   ∨ renders_figures env kwargs = true
     ∧ s' = <["auto_show" := SBool false]> s)
  ∧ (∀ l', r = Ok l' → todo ≠ [] → renders_figures env kwargs = true →
           s' = <["auto_show" := SBool false]> s).
Proof.
  revert l s tr s' r. induction todo as [|t todo IH]; intros l s tr s' r.
  - intros [= <- <- <-]. split; [by left|done].
  - rewrite run_todo_cons.
    destruct (run_task env kwargs t l s) as [[tr1 s1] [l1|e]] eqn:Ht.
    + destruct (run_todo env kwargs todo l1 s1) as [[tr2 s2] r2] eqn:Hrest.
      unfold trace_of, settings_of, outcome_of. simpl. intros [= <- <- <-].
      apply IH in Hrest as [Hs2 _].
      apply run_task_settings in Ht as [Hs1 Hset1]. split.
      * destruct Hs1 as [->|[Hr ->]], Hs2 as [->|[Hr' ->]]; auto.
        right. by rewrite insert_insert_eq.
      * intros l' -> _ Hr. pose proof (Hset1 l1 eq_refl Hr) as ->.
        destruct Hs2 as [->|[_ ->]]; [done|]. by rewrite insert_insert_eq.
    + intros [= <- <- <-]. apply run_task_settings in Ht as [Hs1 _].
      split; [done|]. by intros ? [=].
Qed.

End LoopLemmas.

(** ** Options the function never reads *)

Section ColourLimits.

Context {Alignment Matrix Entropy : Type}.
Context (env : Collaborators Alignment Matrix Entropy).
Context (kwargs : Kwargs) (cmin cmax : kwarg Q).

Hypothesis build_ignores_clim : ∀ msa norm,
  buildMutinfoMatrix env msa norm (with_clim kwargs cmin cmax)
  = buildMutinfoMatrix env msa norm kwargs.

Hypothesis entropy_ignores_clim : ∀ msa,
  calcShannonEntropy env msa (with_clim kwargs cmin cmax)
  = calcShannonEntropy env msa kwargs.

Lemma select_matrix_clim t (l : locals Alignment Matrix Entropy) s :
  select_matrix env (with_clim kwargs cmin cmax) t l s
  = select_matrix env kwargs t l s.
Proof.
  destruct t as [|w which]; [done|]. simpl. case_bool_decide.
  - unfold bind, call. by rewrite build_ignores_clim.
  - destruct w; [|done]. unfold get_entropy.
    destruct (l_entropy l); [done|].
    unfold bind, call. by rewrite entropy_ignores_clim.
Qed.

Lemma run_task_clim t (l : locals Alignment Matrix Entropy) s :
  run_task env (with_clim kwargs cmin cmax) t l s = run_task env kwargs t l s.
Proof. by rewrite !run_task_unfold, select_matrix_clim. Qed.

Lemma run_todo_clim todo (l : locals Alignment Matrix Entropy) s :
  run_todo env (with_clim kwargs cmin cmax) todo l s
  = run_todo env kwargs todo l s.
Proof.
  revert l s. induction todo as [|t todo IH]; intros l s; [done|].
  rewrite !run_todo_cons, run_task_clim.
  destruct (run_task env kwargs t l s) as [[tr1 s1] [l1|e]]; [|done].
  by rewrite IH.
Qed.

End ColourLimits.

(** ** The whole function *)

Section RunLemmas.

Context {Alignment Matrix Entropy : Type}.
Context (env : Collaborators Alignment Matrix Entropy).
Context (kwargs : Kwargs).

Lemma evol_coevol_unfold msa s :
  evol_coevol env kwargs msa s =
  let prefix := prefix_of kwargs msa in
  let format := kwargs_get (kw_numformat kwargs) (Some "%12g") in
  match parseMSA env msa with
  | Raise e => ([(ParseMSA msa, Some e)], s, Raise e)
  | Ok a =>
      match buildMutinfoMatrix env a false kwargs with
      | Raise e =>
          ([(ParseMSA msa, None); (BuildMutinfoMatrix a false, Some e)], s,
           Raise e)
      | Ok mutinfo =>
          match writeArray env (prefix +:+ ".txt") mutinfo format with
          | Raise e =>
              ([(ParseMSA msa, None); (BuildMutinfoMatrix a false, None);
                (WriteArray (prefix +:+ ".txt") mutinfo format, Some e)], s,
               Raise e)
          | Ok _ =>
              let r := run_todo env kwargs (todo_of kwargs)
                         (initial_locals prefix a mutinfo None) s in
              (([(ParseMSA msa, None); (BuildMutinfoMatrix a false, None);
                 (WriteArray (prefix +:+ ".txt") mutinfo format, None)]
                ++ trace_of r)%list,
               settings_of r,
               match outcome_of r with
               | Ok _ => Ok tt
               | Raise e => Raise e
               end)
          end
      end
  end.
Proof.
  unfold evol_coevol, bind, call, ret.
  generalize (todo_of kwargs) as todo. intros todo. simpl.
  destruct (parseMSA env msa) as [a|e]; simpl; [|done].
  destruct (buildMutinfoMatrix env a false kwargs) as [mutinfo|e]; simpl;
    [|done].
  destruct (writeArray env _ mutinfo _) as [u|e]; simpl; [|done].
  destruct (run_todo env kwargs _ _ s) as [[tr s'] [l'|e]]; simpl;
    by rewrite ?app_nil_r.
Qed.

(** A run that returns: the base matrix is written before the loop, then
    one text file is written per task. *)
Lemma evol_coevol_ok_writes msa s :
  outcome_of (evol_coevol env kwargs msa s) = Ok tt →
  write_paths (trace_of (evol_coevol env kwargs msa s))
  = (prefix_of kwargs msa +:+ ".txt")
    :: map (λ t, prefix_of kwargs msa +:+ suffix_of t +:+ ".txt")
         (todo_of kwargs)
  ∧ written_paths (trace_of (evol_coevol env kwargs msa s))
    = write_paths (trace_of (evol_coevol env kwargs msa s))
  ∧ joint_builds (trace_of (evol_coevol env kwargs msa s))
    = length (List.filter is_joint (todo_of kwargs))
  ∧ (∀ a, parseMSA env msa = Ok a →
          entropy_calls (trace_of (evol_coevol env kwargs msa s))
          = entropy_calls_of (calcShannonEntropy env a kwargs) None
              (todo_of kwargs)).
Proof.
  rewrite evol_coevol_unfold. cbv zeta.
  destruct (parseMSA env msa) as [a|e]; [|done].
  destruct (buildMutinfoMatrix env a false kwargs) as [mutinfo|e]; [|done].
  destruct (writeArray env _ mutinfo _) as [u|e]; [|done].
  destruct (run_todo env kwargs (todo_of kwargs) _ s)
    as [[tr s'] [l'|e]] eqn:Hloop; [|done].
  intros _. unfold trace_of, outcome_of. simpl.
  pose proof (run_todo_entropy_ok _ _ _ _ _ _ _ _ Hloop) as He.
  apply run_todo_ok in Hloop as (_ & Hw & Hw' & Hj).
  change (?a :: ?b :: ?c :: tr) with ([a; b; c] ++ tr)%list.
  autorewrite with obs. rewrite Hw, Hw', Hj, He.
  repeat split; try done. by intros ? [= <-].
Qed.

(** Any run, returning or raising. *)
Lemma evol_coevol_spec msa s tr s' r :
  evol_coevol env kwargs msa s = (tr, s', r) →
  settings_after s s'
  ∧ write_paths tr `prefix_of`
      (prefix_of kwargs msa +:+ ".txt")
      :: map (λ t, prefix_of kwargs msa +:+ suffix_of t +:+ ".txt")
           (todo_of kwargs)
  ∧ Forall (λ p, ∃ t format,
               t ∈ todo_of kwargs
               ∧ kwargs_get (kw_figformat kwargs) (Some "pdf") = Some format
               ∧ p = prefix_of kwargs msa +:+ suffix_of t +:+ "." +:+ format)
      (savefig_paths tr)
  ∧ (∀ a, parseMSA env msa = Ok a →
          (entropy_calls tr
           ≤ entropy_calls_of (calcShannonEntropy env a kwargs) None
               (todo_of kwargs))%nat)
  ∧ ((∀ a, parseMSA env msa ≠ Ok a) → entropy_calls tr = 0%nat).
Proof.
  rewrite evol_coevol_unfold. cbv zeta.
  destruct (parseMSA env msa) as [a|e];
    [destruct (buildMutinfoMatrix env a false kwargs) as [mutinfo|e];
     [destruct (writeArray env _ mutinfo _) as [u|e]|]|].
  2-4: intros [= <- <- <-]; unfold write_paths, savefig_paths, entropy_calls;
    simpl; split; [by left|];
    (split; [repeat apply prefix_cons; apply prefix_nil|]);
    (split; [constructor|]); (split; [intros; lia|done]).
  destruct (run_todo env kwargs (todo_of kwargs) _ s)
    as [[tr0 s0] r0] eqn:Hloop.
  unfold trace_of, settings_of. simpl. intros [= <- <- <-].
  apply run_todo_spec in Hloop as (Hs & Hw & Hf & He).
  change (?a :: ?b :: ?c :: tr0) with ([a; b; c] ++ tr0)%list.
  autorewrite with obs. simpl in *.
  split; [done|]. split; [by apply prefix_cons|]. split; [|split].
  - eapply Forall_impl; [exact Hf|]. intros p (t & Hin & fmt & ? & ->).
    by exists t, fmt.
  - by intros ? [= <-].
  - intros Hno. by destruct (Hno a).
Qed.

End RunLemmas.

(** * The claims *)

Section Claims.

Context {Alignment Matrix Entropy : Type}.
Context (env : Collaborators Alignment Matrix Entropy).
Context (kwargs : Kwargs).

(** C1.  When the normalization names contain ["joint"], [todo] is the base
    task, then [('norm', 'joint')] ahead of every other normalization task
    whatever its position in the input, then the tasks of the general
    iteration, among which [('norm', 'joint')] appears again at its place in
    the input order.  A run that returns therefore computes the jointly
    normalized matrix and writes its text file at least twice; exactly
    twice when the names are a set and no correction is named ["joint"]. *)
Theorem joint_planned_first_and_again msa s norm :
  kw_normalization kwargs = Val norm →
  "joint" ∈ norm →
  let run := evol_coevol env kwargs msa s in
  let joint_txt := prefix_of kwargs msa +:+ "_norm_joint" +:+ ".txt" in
  (∃ corr_tasks,
      todo_of kwargs
      = Base :: Variant Norm "joint" :: (norm_loop norm ++ corr_tasks)%list
      ∧ Forall (λ t, ∃ which, t = Variant Corr which) corr_tasks)
  ∧ (∀ pre post, norm = (pre ++ "joint" :: post)%list →
       norm_loop norm
       = (norm_loop pre ++ Variant Norm "joint" :: norm_loop post)%list)
  ∧ (outcome_of run = Ok tt →
       (2 ≤ joint_builds (trace_of run))%nat
       ∧ times_written joint_txt (trace_of run) = joint_builds (trace_of run)
       ∧ (NoDup norm →
          (∀ corr, kw_correction kwargs = Val corr → "joint" ∉ corr) →
          joint_builds (trace_of run) = 2%nat)).
Proof.
  intros Hnorm Hin run joint_txt.
  assert (todo_of kwargs
          = Base :: Variant Norm "joint"
              :: (norm_loop norm
                  ++ match kwargs_get (kw_correction kwargs) (Some []) with
                     | Some corr => plan_corr corr
                     | None => []
                     end)%list) as Htodo.
  { unfold todo_of, plan, plan_norm. rewrite Hnorm. simpl.
    by rewrite bool_decide_eq_true_2. }
  split; [|split].
  - eexists. split; [exact Htodo|].
    destruct (kwargs_get (kw_correction kwargs) (Some [])) as [corr|];
      [|constructor].
    apply Forall_forall. intros t (which & -> & _)%list_elem_of_fmap. eauto.
  - intros pre post ->. by rewrite norm_loop_app.
  - intros Hok. apply evol_coevol_ok_writes in Hok as (Hw & Hw' & Hj & _).
    fold run in Hw, Hw', Hj.
    assert (length (List.filter is_joint (todo_of kwargs))
            = S (length (filter (λ which, which = "joint") norm)
                 + match kwargs_get (kw_correction kwargs) (Some []) with
                   | Some corr =>
                       length (filter (λ which, which = "joint") corr)
                   | None => 0
                   end)%nat) as Hcount.
    { rewrite Htodo. simpl. rewrite List.filter_app, length_app.
      rewrite is_joint_norm_loop. f_equal. f_equal.
      destruct (kwargs_get (kw_correction kwargs) (Some [])); [|done].
      apply is_joint_plan_corr. }
    split; [|split].
    + rewrite Hj, Hcount. pose proof (count_some _ _ Hin). lia.
    + unfold times_written. rewrite Hw', Hw, filter_cons.
      rewrite decide_False.
      * rewrite Hj. apply count_joint_suffix.
      * intros H. apply (inj (String.append _)) in H. done.
    + intros Hnd Hcorr. rewrite Hj, Hcount, (count_once _ _ Hnd Hin).
      destruct (kw_correction kwargs) as [| |corr] eqn:Hc; simpl; [done..|].
      rewrite count_none; [done|]. by apply Hcorr.
Qed.

(** C2.  For [normalization = ["joint", "minent"]] and
    [correction = ["apc"]] the code plans five tasks, [('norm', 'joint')]
    twice, and calls [writeArray] six times on four distinct paths. *)
Theorem joint_minent_apc_plan :
  let kw := Demo.kwargs (Val "p") (Val ["joint"; "minent"]) (Val ["apc"])
              PyNone in
  let run := evol_coevol (Demo.env (Ok tt) (λ _, Ok tt)) kw "piwi_refined.slx"
               Demo.settings0 in
  todo_of kw
  = [Base; Variant Norm "joint"; Variant Norm "joint"; Variant Norm "minent";
     Variant Corr "apc"]
  ∧ map suffix_of (todo_of kw)
    = [""; "_norm_joint"; "_norm_joint"; "_norm_minent"; "_corr_apc"]
  ∧ outcome_of run = Ok tt
  ∧ written_paths (trace_of run)
    = ["p.txt"; "p.txt"; "p_norm_joint.txt"; "p_norm_joint.txt";
       "p_norm_minent.txt"; "p_corr_apc.txt"]
  ∧ remove_dups (written_paths (trace_of run))
    = ["p.txt"; "p_norm_joint.txt"; "p_norm_minent.txt"; "p_corr_apc.txt"]
  ∧ joint_builds (trace_of run) = 2%nat.
Proof. vm_compute. repeat split; reflexivity. Qed.

(** C3 (as amended).  In a run that returns, the base matrix is written to
    [prefix + ".txt"] once before the task list is built, and then one text
    file is written per task at [prefix + suffix + ".txt"], in task order:
    there is one more write than there are tasks, and [prefix + ".txt"] is
    written exactly twice. *)
Theorem text_writes_of_a_run msa s :
  let run := evol_coevol env kwargs msa s in
  let prefix := prefix_of kwargs msa in
  outcome_of run = Ok tt →
  written_paths (trace_of run)
  = (prefix +:+ ".txt")
    :: map (λ t, prefix +:+ suffix_of t +:+ ".txt") (todo_of kwargs)
  ∧ length (written_paths (trace_of run)) = S (length (todo_of kwargs))
  ∧ times_written (prefix +:+ ".txt") (trace_of run) = 2%nat.
Proof.
  intros run prefix Hok.
  apply evol_coevol_ok_writes in Hok as (Hw & Hw' & _).
  fold run prefix in Hw, Hw'. rewrite Hw' , Hw.
  split; [done|]. split; [simpl; by rewrite length_map|].
  unfold times_written. rewrite Hw', Hw.
  destruct (plan_shape (kwargs_get (kw_normalization kwargs) (Some []))
              (kwargs_get (kw_correction kwargs) (Some [])))
    as (rest & Hplan & Hrest).
  unfold todo_of. rewrite Hplan. simpl.
  rewrite filter_cons, decide_True by done.
  rewrite filter_cons, decide_True by done. simpl.
  by rewrite count_base_suffix.
Qed.

(** C5 (as amended).  [calcShannonEntropy] is called lazily and its result
    is cached in [entropy], which the code tests against [None].  It is not
    called when every normalization task is ["joint"] (or there is none).
    Otherwise its first call is made by the first normalization task other
    than ["joint"]: when it happens, the run has written [prefix + ".txt"]
    and the text files of the tasks before that one, and nothing else, and
    has just logged the message of that task.  It is called at most once
    provided it does not return [None]; a run that returns has called it
    once for a result other than [None], and once per normalization task
    other than ["joint"] when it returns [None]. *)
Theorem entropy_called_lazily_and_cached msa s :
  let run := evol_coevol env kwargs msa s in
  let prefix := prefix_of kwargs msa in
  ((∀ a, parseMSA env msa = Ok a →
         calcShannonEntropy env a kwargs ≠ Ok None) →
   (entropy_calls (trace_of run) ≤ 1)%nat)
  ∧ ((∀ which, Variant Norm which ∈ todo_of kwargs → which = "joint") →
     entropy_calls (trace_of run) = 0%nat)
  ∧ (∀ a entropy,
       parseMSA env msa = Ok a →
       calcShannonEntropy env a kwargs = Ok (Some entropy) →
       outcome_of run = Ok tt →
       entropy_calls (trace_of run)
       = if existsb needs_entropy (todo_of kwargs) then 1%nat else 0%nat)
  ∧ (∀ a,
       parseMSA env msa = Ok a →
       calcShannonEntropy env a kwargs = Ok None →
       outcome_of run = Ok tt →
       entropy_calls (trace_of run)
       = length (List.filter needs_entropy (todo_of kwargs)))
  ∧ (entropy_calls (trace_of run) ≠ 0%nat →
     ∃ pre which post,
       todo_of kwargs = (pre ++ Variant Norm which :: post)%list
       ∧ which ≠ "joint"
       ∧ (∀ which', Variant Norm which' ∈ pre → which' = "joint")
       ∧ write_paths (before_entropy (trace_of run))
         = (prefix +:+ ".txt")
           :: map (λ t, prefix +:+ suffix_of t +:+ ".txt") pre
       ∧ last (before_entropy (trace_of run))
         = Some (LoggerInfo (ApplyingNormalization which), None)).
Proof.
  intros run prefix.
  assert (∀ a, parseMSA env msa = Ok a →
               (entropy_calls (trace_of run)
                ≤ entropy_calls_of (calcShannonEntropy env a kwargs) None
                    (todo_of kwargs))%nat) as Hle.
  { intros a Ha. unfold run.
    destruct (evol_coevol env kwargs msa s) as [[tr s'] r] eqn:Hrun.
    apply evol_coevol_spec in Hrun as (_ & _ & _ & Hle & _). by apply Hle. }
  assert ((∀ a, parseMSA env msa ≠ Ok a) → entropy_calls (trace_of run) = 0%nat)
    as Hzero.
  { unfold run.
    destruct (evol_coevol env kwargs msa s) as [[tr s'] r] eqn:Hrun.
    by apply evol_coevol_spec in Hrun as (_ & _ & _ & _ & Hzero). }
  split; [|split; [|split; [|split]]].
  - intros Hnone. destruct (parseMSA env msa) as [a|e] eqn:Hparse.
    + specialize (Hle a eq_refl). unfold entropy_calls_of in Hle.
      specialize (Hnone a eq_refl).
      destruct (calcShannonEntropy env a kwargs) as [[?|]|?]; [|done|];
        destruct (existsb needs_entropy (todo_of kwargs)); lia.
    + rewrite Hzero; [lia|]. intros a. congruence.
  - intros Hall. apply existsb_needs_entropy_false in Hall as Hex.
    destruct (parseMSA env msa) as [a|e] eqn:Hparse.
    + specialize (Hle a eq_refl). unfold entropy_calls_of in Hle.
      rewrite Hex in Hle.
      rewrite (filter_needs_entropy_nil _ Hex) in Hle.
      destruct (calcShannonEntropy env a kwargs) as [[?|]|?]; simpl in Hle;
        lia.
    + apply Hzero. intros a. congruence.
  - intros a entropy Ha Hent Hok.
    apply evol_coevol_ok_writes in Hok as (_ & _ & _ & He).
    fold run in He. rewrite (He a Ha). unfold entropy_calls_of.
    by rewrite Hent.
  - intros a Ha Hent Hok.
    apply evol_coevol_ok_writes in Hok as (_ & _ & _ & He).
    fold run in He. rewrite (He a Ha). unfold entropy_calls_of.
    by rewrite Hent.
  - unfold run. rewrite evol_coevol_unfold. cbv zeta.
    destruct (parseMSA env msa) as [a|e]; [|by intros []].
    destruct (buildMutinfoMatrix env a false kwargs) as [mutinfo|e];
      [|by intros []].
    destruct (writeArray env _ mutinfo _) as [u|e]; [|by intros []].
    pose proof (run_todo_before_entropy env kwargs (todo_of kwargs)
                  (initial_locals (prefix_of kwargs msa) a mutinfo None) s
                  eq_refl) as Hloop.
    destruct (run_todo env kwargs (todo_of kwargs) _ s) as [[tr0 s0] r0].
    unfold trace_of in *. simpl in Hloop |- *. intros Hcalls.
    destruct (Hloop Hcalls)
      as (pre & which & post & Htodo & Hwhich & Hpre & Hw & Hlast).
    exists pre, which, post. split; [done|]. split; [done|]. split.
    { intros which' Hin. destruct (decide (which' = "joint")) as [|Hne]; [done|].
      assert (existsb needs_entropy pre = true); [|congruence].
      apply existsb_exists. exists (Variant Norm which').
      split; [by apply list_elem_of_In|]. simpl.
      by rewrite bool_decide_eq_false_2. }
    split; [by rewrite Hw|].
    destruct (before_entropy tr0) as [|e0 tr1]; [done|]. exact Hlast.
Qed.

(** C6.  An element ["join"] of the normalization names is skipped: no task
    is planned for it, the plan is the one of the names without it, and no
    run writes a text file or saves a figure with the suffix
    ["_norm_join"].  ["joint"], on the contrary, is planned (twice). *)
Theorem join_is_skipped msa s :
  let run := evol_coevol env kwargs msa s in
  let prefix := prefix_of kwargs msa in
  (Variant Norm "join" ∉ todo_of kwargs)
  ∧ (∀ t, t ∈ todo_of kwargs → suffix_of t ≠ "_norm_join")
  ∧ ((prefix +:+ "_norm_join" +:+ ".txt") ∉ write_paths (trace_of run))
  ∧ (∀ format,
       kwargs_get (kw_figformat kwargs) (Some "pdf") = Some format →
       (prefix +:+ "_norm_join" +:+ "." +:+ format)
       ∉ savefig_paths (trace_of run))
  ∧ (∀ norm corr,
       plan (Some norm) corr
       = plan (Some (filter (λ which, which ≠ "join") norm)) corr)
  ∧ plan (Some ["join"]) None = [Base]
  ∧ plan (Some ["joint"]) None
    = [Base; Variant Norm "joint"; Variant Norm "joint"].
Proof.
  intros run prefix.
  assert (Variant Norm "join" ∉ todo_of kwargs) as Hnot.
  { intros [H|[H|[(which & [= <-] & H)|(which & H)]]]%elem_of_plan; done. }
  assert (∀ t, t ∈ todo_of kwargs → suffix_of t ≠ "_norm_join") as Hsuf.
  { intros t Hin ->%suffix_of_join. done. }
  unfold run.
  destruct (evol_coevol env kwargs msa s) as [[tr s'] r] eqn:Hrun.
  apply evol_coevol_spec in Hrun as (_ & Hw & Hf & _).
  unfold trace_of. simpl. fold prefix in Hw, Hf.
  split; [done|]. split; [done|]. split; [|split; [|split]].
  - intros Hin. eapply elem_of_prefix in Hin; [|exact Hw].
    apply elem_of_cons in Hin as [Heq|Hin].
    + by apply (inj (String.append prefix)) in Heq.
    + apply list_elem_of_fmap in Hin as (t & Heq & Hin).
      apply (inj (String.append prefix)) in Heq.
      apply append_inv_tail in Heq. by eapply Hsuf.
  - intros format Hfmt Hin.
    rewrite Forall_forall in Hf. apply Hf in Hin as (t & fmt & Hin & Hfmt' & Heq).
    rewrite Hfmt in Hfmt'. injection Hfmt' as <-.
    apply (inj (String.append prefix)) in Heq.
    apply append_inv_tail in Heq. by eapply Hsuf.
  - intros norm corr. unfold plan, plan_norm. rewrite norm_loop_skip.
    assert (bool_decide ("joint" ∈ filter (λ which, which ≠ "join") norm)
            = bool_decide ("joint" ∈ norm)) as ->; [|done].
    apply bool_decide_ext. rewrite list_elem_of_filter.
    split; [by intros [_ ?]|by intros ?].
  - done.
Qed.

(** C4 (as amended).  With figures requested and the backend imported, an
    exception raised while rendering or saving the figure of a task is not
    caught: it leaves [evol_coevol], no warning is logged for it, and the
    tasks after the failing one are not run.  The text files written so
    far, that of the failing task included, stay written. *)
Theorem render_failure_aborts_the_run msa s u a mutinfo pre t post
    tr0 s0 l0 tr1 s1 l1 matrix suffix tr2 s2 e :
  let prefix := prefix_of kwargs msa in
  let format := kwargs_get (kw_numformat kwargs) (Some "%12g") in
  truthy (kwargs_get (kw_figcoevol kwargs) None) = true →
  import_pyplot env = Ok u →
  parseMSA env msa = Ok a →
  buildMutinfoMatrix env a false kwargs = Ok mutinfo →
  is_ok (writeArray env (prefix +:+ ".txt") mutinfo format) →
  todo_of kwargs = (pre ++ t :: post)%list →
  run_todo env kwargs pre (initial_locals prefix a mutinfo None) s
  = (tr0, s0, Ok l0) →
  select_matrix env kwargs t l0 s0 = (tr1, s1, Ok (l1, matrix, suffix)) →
  is_ok (writeArray env (l_prefix l1 +:+ suffix +:+ ".txt") matrix format) →
  render env kwargs l1 matrix suffix s1 = (tr2, s2, Raise e) →
  evol_coevol env kwargs msa s
  = (([(ParseMSA msa, None); (BuildMutinfoMatrix a false, None);
       (WriteArray (prefix +:+ ".txt") mutinfo format, None)]
      ++ tr0 ++ tr1
      ++ (WriteArray (l_prefix l1 +:+ suffix +:+ ".txt") matrix format, None)
         :: (ImportPyplot, None) :: tr2)%list,
     s2, Raise e)
  ∧ warnings tr2 = 0%nat
  ∧ written_paths (trace_of (evol_coevol env kwargs msa s))
    = (prefix +:+ ".txt")
      :: map (λ t, prefix +:+ suffix_of t +:+ ".txt") (pre ++ [t]).
Proof.
  intros prefix format Hfig Himp Hparse Hbuild [[] Hwrite] Htodo Hpre Hsel
    Hwrite' Hrender.
  pose proof (run_task_render_raises _ _ _ _ _ _ _ _ _ _ _ _ _ _
                Hfig Himp Hsel Hwrite' Hrender) as Htask.
  pose proof (run_todo_raise _ _ _ _ post _ _ _ _ _ _ _ _ Hpre Htask) as Hloop.
  assert (evol_coevol env kwargs msa s
          = (([(ParseMSA msa, None); (BuildMutinfoMatrix a false, None);
               (WriteArray (prefix +:+ ".txt") mutinfo format, None)]
              ++ tr0 ++ tr1
              ++ (WriteArray (l_prefix l1 +:+ suffix +:+ ".txt") matrix
                    format, None)
                 :: (ImportPyplot, None) :: tr2)%list,
             s2, Raise e)) as Hrun.
  { rewrite evol_coevol_unfold. cbv zeta. rewrite Hparse, Hbuild.
    fold prefix format. rewrite Hwrite, Htodo, Hloop. done. }
  split; [exact Hrun|].
  pose proof (render_spec _ _ _ _ _ _ _ _ _ Hrender)
    as (_ & _ & Hw2 & Hwarn & _).
  split; [done|]. rewrite Hrun. unfold trace_of. simpl.
  pose proof (select_matrix_spec _ _ _ _ _ _ _ _ Hsel) as (_ & _ & Hw1 & _).
  apply select_matrix_ok in Hsel as (-> & Hin1 & _).
  apply run_todo_ok in Hpre as (Hin0 & _ & Hw0 & _).
  change (?x :: ?y :: ?z :: (tr0 ++ ?w))%list
    with ([x; y; z] ++ tr0 ++ w)%list.
  change (?x :: ?y :: tr2) with ([x; y] ++ tr2)%list.
  autorewrite with obs. rewrite Hw0, Hw1, Hw2. simpl.
  rewrite map_app. simpl. do 3 f_equal.
  destruct Hin0 as (_ & _ & Hp0), Hin1 as (_ & _ & Hp1).
  by rewrite Hp1, Hp0.
Qed.

(** C7.  Figures requested, [matplotlib.pyplot] not importable, and no
    other collaborator raising: the run returns, every task has written its
    text file, one warning was logged per task (at least one, since the
    base task is always planned), no figure was saved and
    [prody.SETTINGS] is untouched. *)
Theorem missing_backend_is_not_fatal msa s :
  let run := evol_coevol env kwargs msa s in
  let prefix := prefix_of kwargs msa in
  truthy (kwargs_get (kw_figcoevol kwargs) None) = true →
  import_pyplot env = Raise ImportError →
  no_fatal_error env kwargs →
  outcome_of run = Ok tt
  ∧ written_paths (trace_of run)
    = (prefix +:+ ".txt")
      :: map (λ t, prefix +:+ suffix_of t +:+ ".txt") (todo_of kwargs)
  ∧ warnings (trace_of run) = length (todo_of kwargs)
  ∧ (1 ≤ warnings (trace_of run))%nat
  ∧ savefig_paths (trace_of run) = []
  ∧ settings_of run = s.
Proof.
  intros run prefix Hfig Himp Hok.
  assert (outcome_of run = Ok tt ∧ warnings (trace_of run)
            = length (todo_of kwargs)
          ∧ savefig_paths (trace_of run) = [] ∧ settings_of run = s)
    as (Hout & Hwarn & Hf & Hs).
  { unfold run. rewrite evol_coevol_unfold. cbv zeta.
    pose proof Hok as (Hparse & Hbuild & _ & _ & _ & Hwrite).
    destruct (Hparse msa) as [a ->]. destruct (Hbuild a false) as [mutinfo ->].
    destruct (Hwrite (prefix_of kwargs msa +:+ ".txt") mutinfo
                (kwargs_get (kw_numformat kwargs) (Some "%12g"))) as [[] ->].
    destruct (run_todo_unavailable env kwargs (todo_of kwargs)
                (initial_locals (prefix_of kwargs msa) a mutinfo None) s
                Hfig Himp Hok) as (tr & l' & -> & Hwarn & Hf).
    unfold trace_of, outcome_of, settings_of. simpl.
    change (?x :: ?y :: ?z :: tr)%list with ([x; y; z] ++ tr)%list.
    autorewrite with obs. by rewrite Hwarn, Hf. }
  split; [done|].
  split.
  { destruct (evol_coevol_ok_writes env kwargs msa s Hout) as (Hw & Hw' & _).
    unfold run, prefix. by rewrite Hw', Hw. }
  split; [done|]. split; [|done].
  rewrite Hwarn. unfold todo_of, plan. simpl. lia.
Qed.

(** C8.  Two runs whose options differ only in [cmin] and [cmax] make the
    same calls with the same arguments, write the same text files, save the
    same figures and end the same way, provided [buildMutinfoMatrix] and
    [calcShannonEntropy], which receive all the options, do not depend on
    these two: [evol_coevol] itself never reads them. *)
Theorem colour_limits_are_inert msa s cmin cmax :
  (∀ a norm,
     buildMutinfoMatrix env a norm (with_clim kwargs cmin cmax)
     = buildMutinfoMatrix env a norm kwargs) →
  (∀ a,
     calcShannonEntropy env a (with_clim kwargs cmin cmax)
     = calcShannonEntropy env a kwargs) →
  evol_coevol env (with_clim kwargs cmin cmax) msa s
  = evol_coevol env kwargs msa s.
Proof.
  intros Hbuild Hent. rewrite !evol_coevol_unfold. cbv zeta.
  destruct (parseMSA env msa) as [a|e]; [|done].
  rewrite Hbuild.
  destruct (buildMutinfoMatrix env a false kwargs) as [mutinfo|e]; [|done].
  change (prefix_of (with_clim kwargs cmin cmax) msa)
    with (prefix_of kwargs msa).
  change (kw_numformat (with_clim kwargs cmin cmax))
    with (kw_numformat kwargs).
  change (todo_of (with_clim kwargs cmin cmax)) with (todo_of kwargs).
  destruct (writeArray env _ mutinfo _) as [u|e]; [|done].
  by rewrite run_todo_clim.
Qed.

(** C10 (as amended).  While the task list is consumed, the entropy cache
    is filled at most once and never changed afterwards, and
    [prody.SETTINGS["auto_show"]] is set to [False] by every task that
    reaches the rendering of its figure (figures requested and
    [matplotlib.pyplot] imported); nothing else changes: the other keys of
    [prody.SETTINGS], the alignment, the base matrix and the prefix are the
    same after every task, and [prody.SETTINGS] as a whole when no figure
    is rendered. *)
Theorem loop_frame todo (l : locals Alignment Matrix Entropy) s :
  let run := run_todo env kwargs todo l s in
  (settings_of run = s
   ∨ renders_figures env kwargs = true
     ∧ settings_of run = <["auto_show" := SBool false]> s)
  ∧ (∀ key, key ≠ "auto_show" → settings_of run !! key = s !! key)
  ∧ (renders_figures env kwargs = false → settings_of run = s)
  ∧ (∀ l', outcome_of run = Ok l' →
       same_inputs l l'
       ∧ (l_entropy l' = l_entropy l
          ∨ l_entropy l = None ∧ is_Some (l_entropy l'))
       ∧ (todo ≠ [] → renders_figures env kwargs = true →
          settings_of run = <["auto_show" := SBool false]> s)).
Proof.
  intros run. unfold run.
  destruct (run_todo env kwargs todo l s) as [[tr s'] r] eqn:Hloop.
  unfold settings_of, outcome_of. simpl.
  pose proof (run_todo_settings _ _ _ _ _ _ _ _ Hloop) as [Hs Hset].
  split; [done|]. split; [|split].
  - intros key Hkey. destruct Hs as [->|[_ ->]]; [done|].
    by rewrite lookup_insert_ne.
  - intros Hoff. destruct Hs as [->|[Hon _]]; [done|congruence].
  - intros l' ->. split; [by apply run_todo_ok in Hloop as (? & _)|].
    split; [|exact (Hset l' eq_refl)].
    by apply run_todo_entropy_state in Hloop as [Hstate _].
Qed.

(** C9 (as amended).  When no prefix is given, the prefix is the file name
    without its last extension and, when that extension is [".gz"] in any
    letter case, without the extension before it either, followed by
    ["_mutinfo"]; extensions are those of [os.path.splitext], so a name made
    of leading dots and ["gz"] keeps them. *)
Theorem default_prefix_derivation msa :
  kwargs_get (kw_prefix kwargs) None = None →
  prefix_of kwargs msa
  = fst (Path.splitext (Path.strip_gz_ext msa)) +:+ "_mutinfo"
  ∧ (∀ stem gz,
       msa = stem +:+ gz →
       Path.basename_has_non_dot stem →
       Path.lower gz = ".gz" →
       prefix_of kwargs msa = fst (Path.splitext stem) +:+ "_mutinfo")
  ∧ (Path.lower (snd (Path.splitext msa)) ≠ ".gz" →
     prefix_of kwargs msa = fst (Path.splitext msa) +:+ "_mutinfo")
  ∧ prefix_of kwargs "piwi_refined.slx" = "piwi_refined_mutinfo"
  ∧ prefix_of kwargs "piwi_refined.slx.gz" = "piwi_refined_mutinfo"
  ∧ prefix_of kwargs "piwi_refined.slx.GZ" = "piwi_refined_mutinfo"
  ∧ prefix_of kwargs ".gz" = ".gz_mutinfo".
Proof.
  intros Hnone. unfold prefix_of. rewrite Hnone.
  split; [apply default_prefix_unfold|]. split; [|split; [|done]].
  - intros stem gz -> Hstem Hgz. unfold Path.default_prefix.
    assert (Path.splitext (stem +:+ gz) = (stem, gz)) as ->.
    { apply lower_gz in Hgz as [-> | [-> | [-> | ->]]];
        by apply splitext_app. }
    by rewrite Hgz.
  - intros Hext. unfold Path.default_prefix.
    destruct (Path.splitext msa) as [prefix ext]. simpl in *.
    by apply String.eqb_neq in Hext as ->.
Qed.

End Claims.

(** C1 on a run: ["joint"] given last is planned first and again. *)
Lemma joint_planned_first_and_again_witness :
  joint_builds
    (trace_of
       (evol_coevol (Demo.env (Ok tt) (λ _, Ok tt))
          (Demo.kwargs (Val "p") (Val ["minent"; "joint"]) (Val ["apc"])
             PyNone)
          "piwi_refined.slx" Demo.settings0))
  = 2%nat.
Proof.
  refine (proj2 (proj2 (proj2 (proj2
    (joint_planned_first_and_again (Demo.env (Ok tt) (λ _, Ok tt))
       (Demo.kwargs (Val "p") (Val ["minent"; "joint"]) (Val ["apc"]) PyNone)
       "piwi_refined.slx" Demo.settings0 ["minent"; "joint"]
       eq_refl _)) _)) _ _).
  - compute_done.
  - reflexivity.
  - compute_done.
  - intros corr [= <-]. compute_done.
Defined.

(** C3 (as stated) fails on a run without options: one task, two writes,
    both to [p.txt]. *)
Lemma one_write_per_task_counterexample :
  let kw := Demo.kwargs (Val "p") PyNone PyNone PyNone in
  let run := evol_coevol (Demo.env (Ok tt) (λ _, Ok tt)) kw "piwi_refined.slx"
               Demo.settings0 in
  outcome_of run = Ok tt
  ∧ ¬ (length (written_paths (trace_of run)) = length (todo_of kw)
       ∧ times_written "p.txt" (trace_of run) = 1%nat).
Proof. split; [reflexivity|]. intros [H _]. vm_compute in H. discriminate. Qed.

Lemma text_writes_of_a_run_witness :
  times_written "p.txt"
    (trace_of
       (evol_coevol (Demo.env (Ok tt) (λ _, Ok tt))
          (Demo.kwargs (Val "p") (Val ["minent"]) PyNone PyNone)
          "piwi_refined.slx" Demo.settings0))
  = 2%nat.
Proof.
  refine (proj2 (proj2
    (text_writes_of_a_run (Demo.env (Ok tt) (λ _, Ok tt))
       (Demo.kwargs (Val "p") (Val ["minent"]) PyNone PyNone)
       "piwi_refined.slx" Demo.settings0 _))).
  reflexivity.
Defined.

(** C5 (as stated) fails when [calcShannonEntropy] returns [None]: the
    test [entropy is None] holds again at the second normalization, and the
    run calls it twice. *)
Lemma entropy_called_twice_counterexample :
  let kw := Demo.kwargs (Val "p") (Val ["minent"; "sument"]) PyNone PyNone in
  let run := evol_coevol Demo.env_entropy_none kw "piwi_refined.slx"
               Demo.settings0 in
  outcome_of run = Ok tt
  ∧ entropy_calls (trace_of run) = 2%nat
  ∧ ¬ (entropy_calls (trace_of run) ≤ 1)%nat.
Proof.
  split; [reflexivity|]. split; [reflexivity|].
  intros H. vm_compute in H. lia.
Qed.

(** C5 on a run with two normalizations that read the entropy. *)
Lemma entropy_called_lazily_and_cached_witness :
  entropy_calls
    (trace_of
       (evol_coevol (Demo.env (Ok tt) (λ _, Ok tt))
          (Demo.kwargs (Val "p") (Val ["joint"; "minent"; "sument"]) PyNone
             PyNone)
          "piwi_refined.slx" Demo.settings0))
  = 1%nat.
Proof.
  refine (proj1 (proj2 (proj2
    (entropy_called_lazily_and_cached (Demo.env (Ok tt) (λ _, Ok tt))
       (Demo.kwargs (Val "p") (Val ["joint"; "minent"; "sument"]) PyNone
          PyNone)
       "piwi_refined.slx" Demo.settings0))) _ _ eq_refl eq_refl eq_refl).
Defined.

(** C6 on a run whose names contain ["join"]. *)
Lemma join_is_skipped_witness :
  "p_norm_join.pdf"
  ∉ savefig_paths
      (trace_of
         (evol_coevol (Demo.env (Ok tt) (λ _, Ok tt))
            (Demo.kwargs (Val "p") (Val ["join"; "minent"]) PyNone (Val true))
            "piwi_refined.slx" Demo.settings0)).
Proof.
  refine (proj1 (proj2 (proj2 (proj2
    (join_is_skipped (Demo.env (Ok tt) (λ _, Ok tt))
       (Demo.kwargs (Val "p") (Val ["join"; "minent"]) PyNone (Val true))
       "piwi_refined.slx" Demo.settings0)))) "pdf" _).
  reflexivity.
Defined.

(** C4 (as stated) fails when saving the figure of the base task raises:
    the run ends with that exception, nothing is logged as a warning, and
    the text file of the normalization task is never written. *)
Lemma render_failure_counterexample :
  let kw := Demo.kwargs (Val "p") (Val ["minent"]) PyNone (Val true) in
  let run := evol_coevol (Demo.env (Ok tt) (Demo.savefig_fails_at "p.pdf")) kw
               "piwi_refined.slx" Demo.settings0 in
  todo_of kw = [Base; Variant Norm "minent"]
  ∧ outcome_of run = Raise (Error "savefig")
  ∧ warnings (trace_of run) = 0%nat
  ∧ written_paths (trace_of run) = ["p.txt"; "p.txt"]
  ∧ ¬ (outcome_of run = Ok tt
       ∧ "p_norm_minent.txt" ∈ written_paths (trace_of run)).
Proof.
  repeat split; try reflexivity. intros [H _]. vm_compute in H. discriminate.
Qed.

Lemma render_failure_aborts_the_run_witness :
  outcome_of
    (evol_coevol (Demo.env (Ok tt) (Demo.savefig_fails_at "p.pdf"))
       (Demo.kwargs (Val "p") (Val ["minent"]) PyNone (Val true))
       "piwi_refined.slx" Demo.settings0)
  = Raise (Error "savefig").
Proof.
  pose proof
    (render_failure_aborts_the_run
       (Demo.env (Ok tt) (Demo.savefig_fails_at "p.pdf"))
       (Demo.kwargs (Val "p") (Val ["minent"]) PyNone (Val true))
       "piwi_refined.slx" Demo.settings0 tt "msa(piwi_refined.slx)"
       "mutinfo(msa(piwi_refined.slx))" [] Base [Variant Norm "minent"]
       [] Demo.settings0
       (initial_locals "p" "msa(piwi_refined.slx)"
          "mutinfo(msa(piwi_refined.slx))" None)
       [] Demo.settings0
       (initial_locals "p" "msa(piwi_refined.slx)"
          "mutinfo(msa(piwi_refined.slx))" None)
       "mutinfo(msa(piwi_refined.slx))" ""
       [(PltFigure (Some 8%Q) (Some 6%Q), None);
        (ShowMutinfoMatrix "mutinfo(msa(piwi_refined.slx))" []
           "msa(piwi_refined.slx)", None);
        (Savefig "p.pdf" "pdf" (Some 300%Q), Some (Error "savefig"))]
       (<["auto_show" := SBool false]> Demo.settings0)
       (Error "savefig")
       eq_refl eq_refl eq_refl eq_refl (ex_intro _ tt eq_refl) eq_refl
       eq_refl eq_refl (ex_intro _ tt eq_refl) eq_refl) as [H _].
  by rewrite H.
Defined.

(** C7 on a run with two tasks. *)
Lemma missing_backend_is_not_fatal_witness :
  let run :=
    evol_coevol (Demo.env (Raise ImportError) (λ _, Ok tt))
      (Demo.kwargs (Val "p") (Val ["minent"]) PyNone (Val true))
      "piwi_refined.slx" Demo.settings0 in
  outcome_of run = Ok tt
  ∧ written_paths (trace_of run) = ["p.txt"; "p.txt"; "p_norm_minent.txt"]
  ∧ warnings (trace_of run) = 2%nat.
Proof.
  intros run.
  destruct (missing_backend_is_not_fatal
              (Demo.env (Raise ImportError) (λ _, Ok tt))
              (Demo.kwargs (Val "p") (Val ["minent"]) PyNone (Val true))
              "piwi_refined.slx" Demo.settings0)
    as (Hout & Hw & Hwarn & _).
  - reflexivity.
  - reflexivity.
  - repeat split; intros; eexists; reflexivity.
  - fold run in Hout, Hw, Hwarn. rewrite Hout, Hw, Hwarn. repeat split.
Defined.

(** C8 on a run with figures: other limits, same run. *)
Lemma colour_limits_are_inert_witness :
  evol_coevol (Demo.env (Ok tt) (λ _, Ok tt))
    (with_clim (Demo.kwargs (Val "p") (Val ["minent"]) (Val ["apc"]) (Val true))
       (Val 0.25%Q) (Val 0.75%Q))
    "piwi_refined.slx" Demo.settings0
  = evol_coevol (Demo.env (Ok tt) (λ _, Ok tt))
      (Demo.kwargs (Val "p") (Val ["minent"]) (Val ["apc"]) (Val true))
      "piwi_refined.slx" Demo.settings0.
Proof.
  apply (colour_limits_are_inert (Demo.env (Ok tt) (λ _, Ok tt))
           (Demo.kwargs (Val "p") (Val ["minent"]) (Val ["apc"]) (Val true))
           "piwi_refined.slx" Demo.settings0 (Val 0.25%Q) (Val 0.75%Q)).
  - intros a norm. reflexivity.
  - intros a. reflexivity.
Defined.

(** C10 (as stated) fails as soon as one figure is rendered: the loop
    leaves ['auto_show'] at [False]. *)
Lemma settings_unchanged_counterexample :
  let kw := Demo.kwargs (Val "p") PyNone PyNone (Val true) in
  let run := run_todo (Demo.env (Ok tt) (λ _, Ok tt)) kw (todo_of kw)
               (initial_locals "p" "msa" "mutinfo" None) Demo.settings0 in
  Demo.settings0 !! "auto_show" = Some (SBool true)
  ∧ settings_of run !! "auto_show" = Some (SBool false)
  ∧ settings_of run ≠ Demo.settings0.
Proof.
  split; [reflexivity|]. split; [reflexivity|].
  intros H. apply (f_equal (λ m, m !! "auto_show")) in H.
  vm_compute in H. discriminate.
Qed.

Lemma loop_frame_witness :
  let kw := Demo.kwargs (Val "p") (Val ["minent"]) PyNone (Val true) in
  let run := run_todo (Demo.env (Ok tt) (λ _, Ok tt)) kw (todo_of kw)
               (initial_locals "p" "msa" "mutinfo" None) Demo.settings0 in
  settings_of run !! "dpi" = Demo.settings0 !! "dpi"
  ∧ settings_of run = <["auto_show" := SBool false]> Demo.settings0.
Proof.
  intros kw run.
  pose proof (loop_frame (Demo.env (Ok tt) (λ _, Ok tt)) kw (todo_of kw)
                (initial_locals "p" "msa" "mutinfo" None) Demo.settings0)
    as (_ & Hframe & _ & Hok).
  split; [by apply Hframe|].
  by refine (proj2 (proj2 (Hok _ eq_refl)) _ eq_refl).
Defined.

(** C9 (as stated) fails on an upper-case [".GZ"]: the code removes both
    extensions, the stated derivation only the last one. *)
Lemma default_prefix_counterexample :
  let kw := Demo.kwargs PyNone PyNone PyNone PyNone in
  prefix_of kw "piwi_refined.slx.GZ" = "piwi_refined_mutinfo"
  ∧ Path.spec_default_prefix "piwi_refined.slx.GZ" = "piwi_refined.slx_mutinfo"
  ∧ ¬ (∀ msa, prefix_of kw msa = Path.spec_default_prefix msa).
Proof.
  split; [reflexivity|]. split; [reflexivity|].
  intros H. specialize (H "piwi_refined.slx.GZ"). vm_compute in H.
  discriminate.
Qed.

Lemma default_prefix_derivation_witness :
  prefix_of (Demo.kwargs PyNone PyNone PyNone PyNone) "dir.d/piwi.slx.Gz"
  = "dir.d/piwi_mutinfo".
Proof.
  refine (proj1 (proj2
    (default_prefix_derivation (Demo.kwargs PyNone PyNone PyNone PyNone)
       "dir.d/piwi.slx.Gz" eq_refl)) "dir.d/piwi.slx" ".Gz" eq_refl _ eq_refl).
  exists 6%nat, "p"%char. by repeat split.
Defined.

Example splitext_slx : Path.splitext "piwi_refined.slx" = ("piwi_refined", ".slx").
Proof. reflexivity. Qed.

Example splitext_dotfile : Path.splitext "dir.d/..gz" = ("dir.d/..gz", "").
Proof. reflexivity. Qed.

Example splitext_dir : Path.splitext "a.b/c" = ("a.b/c", "").
Proof. reflexivity. Qed.

Example default_prefix_slx :
  Path.default_prefix "piwi_refined.slx" = "piwi_refined_mutinfo".
Proof. reflexivity. Qed.

Example default_prefix_slx_gz :
  Path.default_prefix "piwi_refined.slx.gz" = "piwi_refined_mutinfo".
Proof. reflexivity. Qed.

Example default_prefix_upper :
  Path.default_prefix "piwi_refined.slx.GZ" = "piwi_refined_mutinfo"
  /\ Path.spec_default_prefix "piwi_refined.slx.GZ" = "piwi_refined.slx_mutinfo".
Proof. split; reflexivity. Qed.

(** What a run with normalizations ["joint"], ["minent"] and ["sument"] has
    written when it first calls [calcShannonEntropy], and the event before
    that call. *)
Example writes_before_the_entropy :
  let run := evol_coevol (Demo.env (Ok tt) (λ _, Ok tt))
               (Demo.kwargs (Val "p") (Val ["joint"; "minent"; "sument"])
                  PyNone PyNone)
               "piwi_refined.slx" Demo.settings0 in
  write_paths (before_entropy (trace_of run))
  = ["p.txt"; "p.txt"; "p_norm_joint.txt"; "p_norm_joint.txt"]
  ∧ last (before_entropy (trace_of run))
    = Some (LoggerInfo (ApplyingNormalization "minent"), None).
Proof. split; reflexivity. Qed.

(** * Further properties of the planner *)

Section PlannerProperties.

Implicit Types norm corr : list string.

Lemma norm_loop_nil norm :
  norm_loop norm = [] ↔ Forall (λ which, which = "join") norm.
Proof.
  induction norm as [|which norm IH]; [done|]. simpl.
  rewrite Forall_cons. case_bool_decide as Hj.
  - rewrite IH. split; [by intros ?|by intros [_ ?]].
  - split; [done|]. by intros [? _].
Qed.

Lemma norm_loop_no_join norm :
  Forall (λ which, which ≠ "join") norm →
  norm_loop norm = map (Variant Norm) norm.
Proof.
  induction 1 as [|which norm Hj _ IH]; [done|]. simpl.
  by rewrite bool_decide_eq_false_2, IH.
Qed.

Lemma plan_some_some norm corr :
  plan (Some norm) (Some corr)
  = Base
    :: ((if bool_decide ("joint" ∈ norm) then [Variant Norm "joint"] else [])
        ++ map (Variant Norm) (filter (λ which, which ≠ "join") norm)
        ++ map (Variant Corr) corr)%list
  ∧ length (plan (Some norm) (Some corr))
    = (1 + (if bool_decide ("joint" ∈ norm) then 1 else 0)
       + length (filter (λ which, which ≠ "join") norm) + length corr)%nat
  ∧ (∀ t, t ∈ plan (Some norm) (Some corr)
          ↔ t = Base
            ∨ (∃ which, t = Variant Norm which ∧ which ∈ norm
                        ∧ which ≠ "join")
            ∨ (∃ which, t = Variant Corr which ∧ which ∈ corr)).
Proof.
  assert (plan (Some norm) (Some corr)
          = Base
            :: ((if bool_decide ("joint" ∈ norm)
                 then [Variant Norm "joint"] else [])
                ++ map (Variant Norm) (filter (λ which, which ≠ "join") norm)
                ++ map (Variant Corr) corr)%list) as Hplan.
  { unfold plan, plan_norm, plan_corr. rewrite norm_loop_filter. simpl.
    by rewrite <-app_assoc. }
  split; [done|]. split.
  - rewrite Hplan. simpl. rewrite !length_app, !length_map.
    case_bool_decide; simpl; lia.
  - intros t. rewrite Hplan, elem_of_cons, !elem_of_app, !list_elem_of_fmap.
    split.
    + intros [->|[Hj|[(which & -> & Hin)|(which & -> & Hin)]]]; eauto 6.
      * case_bool_decide as Hin; [|by apply elem_of_nil in Hj].
        apply list_elem_of_singleton in Hj as ->. right. left.
        by exists "joint".
      * apply list_elem_of_filter in Hin as [??]. eauto 8.
    + intros [->|[(which & -> & Hin & Hj)|(which & -> & Hin)]]; eauto 6.
      right. right. left. exists which. split; [done|].
      by apply list_elem_of_filter.
Qed.

(** X2.  Only the base task is planned exactly when nothing effective is
    requested: the normalization key is missing, [None], or a list of
    ["join"] only, and the correction key is missing, [None] or empty. *)
Theorem only_base_planned (kwargs : Kwargs) :
  todo_of kwargs = [Base]
  ↔ (∀ norm, kw_normalization kwargs = Val norm →
             Forall (λ which, which = "join") norm)
    ∧ (∀ corr, kw_correction kwargs = Val corr → corr = []).
Proof.
  assert (∀ norm, plan_norm norm = [] ↔ Forall (λ which, which = "join") norm)
    as Hnorm.
  { intros norm. unfold plan_norm. split.
    - intros [_ H]%app_eq_nil. by apply norm_loop_nil.
    - intros H. rewrite (proj2 (norm_loop_nil norm) H).
      rewrite bool_decide_eq_false_2; [done|].
      intros Hin. rewrite Forall_forall in H. by apply H in Hin. }
  assert (match kwargs_get (kw_normalization kwargs) (Some []) with
          | Some norm => plan_norm norm
          | None => []
          end = []
          ↔ ∀ norm, kw_normalization kwargs = Val norm →
                    Forall (λ which, which = "join") norm) as HN.
  { destruct (kw_normalization kwargs) as [| |norm]; simpl.
    - split; [by intros _ ? [=]|done].
    - split; [by intros _ ? [=]|done].
    - rewrite Hnorm. split; [by intros H ? [= <-]|by intros H; apply H]. }
  assert (match kwargs_get (kw_correction kwargs) (Some []) with
          | Some corr => plan_corr corr
          | None => []
          end = []
          ↔ ∀ corr, kw_correction kwargs = Val corr → corr = []) as HC.
  { destruct (kw_correction kwargs) as [| |corr]; simpl.
    - split; [by intros _ ? [=]|done].
    - split; [by intros _ ? [=]|done].
    - split; [by intros ->%fmap_nil_inv ? [= <-]|].
      intros H. by rewrite (H corr eq_refl). }
  rewrite <-HN, <-HC. unfold todo_of, plan. simpl. split.
  - intros [= H]. by apply app_eq_nil in H.
  - intros [-> ->]. done.
Qed.

Lemma suffix_of_eq_iff (prefix : string) (t t' : task) :
  (suffix_of t = suffix_of t'
   ↔ t = t' ∨ is_joint t = true ∧ is_joint t' = true)
  ∧ (prefix +:+ suffix_of t +:+ ".txt" = prefix +:+ suffix_of t' +:+ ".txt"
     ↔ t = t' ∨ is_joint t = true ∧ is_joint t' = true).
Proof.
  assert (suffix_of t = suffix_of t'
          ↔ t = t' ∨ is_joint t = true ∧ is_joint t' = true) as Hsuf.
  { split.
    - destruct t as [|w a], t' as [|w' b]; simpl.
      + by left.
      + case_bool_decide; [done|]. by destruct w'.
      + case_bool_decide; [done|]. by destruct w.
      + case_bool_decide as Ha; case_bool_decide as Hb; subst.
        * by right.
        * destruct w'; intros Heq; [|done].
          by apply (inj (String.append "_norm_")) in Heq.
        * destruct w; intros Heq; [|done].
          by apply (inj (String.append "_norm_")) in Heq.
        * destruct w, w'; intros Heq; try done.
          -- apply (inj (String.append "_norm_")) in Heq as ->. by left.
          -- apply (inj (String.append "_corr_")) in Heq as ->. by left.
    - intros [->|[H H']]; [done|].
      apply suffix_of_joint in H, H'. congruence. }
  split; [done|]. rewrite <-Hsuf. split; [|by intros ->].
  intros H. apply (inj (String.append prefix)) in H.
  by apply append_inv_tail in H.
Qed.

(** X1.  The task list in closed form: the base task, [('norm', 'joint')]
    if ["joint"] was requested, the requested normalizations other than
    ["join"] in input order with their repetitions, then the requested
    corrections in input order with their repetitions.  So a task is
    planned exactly for the requested names other than ["join"]. *)
Theorem plan_closed_form norm corr :
  plan (Some norm) (Some corr)
  = Base
    :: ((if bool_decide ("joint" ∈ norm) then [Variant Norm "joint"] else [])
        ++ map (Variant Norm) (filter (λ which, which ≠ "join") norm)
        ++ map (Variant Corr) corr)%list
  ∧ length (plan (Some norm) (Some corr))
    = (1 + (if bool_decide ("joint" ∈ norm) then 1 else 0)
       + length (filter (λ which, which ≠ "join") norm) + length corr)%nat
  ∧ (∀ t, t ∈ plan (Some norm) (Some corr)
          ↔ t = Base
            ∨ (∃ which, t = Variant Norm which ∧ which ∈ norm
                        ∧ which ≠ "join")
            ∨ (∃ which, t = Variant Corr which ∧ which ∈ corr)).
Proof. apply plan_some_some. Qed.

(** X4.  Two tasks get the same suffix, hence the same text file, only when
    they are the same task or both take the ['joint'] branch. *)
Theorem suffix_of_inj (prefix : string) (t t' : task) :
  (suffix_of t = suffix_of t'
   ↔ t = t' ∨ is_joint t = true ∧ is_joint t' = true)
  ∧ (prefix +:+ suffix_of t +:+ ".txt" = prefix +:+ suffix_of t' +:+ ".txt"
     ↔ t = t' ∨ is_joint t = true ∧ is_joint t' = true).
Proof. apply suffix_of_eq_iff. Qed.

(** X3.  For names drawn from the declared choices the test
    [which == 'join'] never fires: every requested normalization is planned
    in the loop, so the plan has one task per requested name, one more for
    ["joint"], and the base task; and two different planned tasks never
    share a suffix. *)
Theorem choices_make_the_skip_dead norm corr :
  Forall (λ which, which ∈ normalization_choices) norm →
  Forall (λ which, which ∈ correction_choices) corr →
  norm_loop norm = map (Variant Norm) norm
  ∧ length (plan (Some norm) (Some corr))
    = (1 + (if bool_decide ("joint" ∈ norm) then 1 else 0)
       + length norm + length corr)%nat
  ∧ (∀ t t', t ∈ plan (Some norm) (Some corr) →
             t' ∈ plan (Some norm) (Some corr) →
             suffix_of t = suffix_of t' → t = t').
Proof.
  intros Hnorm Hcorr.
  assert (norm_loop norm = map (Variant Norm) norm) as Hloop.
  { apply norm_loop_no_join. eapply Forall_impl; [exact Hnorm|].
    intros which Hin ->. vm_compute in Hin.
    repeat (apply elem_of_cons in Hin as [Hin|Hin]; [done|]).
    by apply elem_of_nil in Hin. }
  assert (∀ t, t ∈ plan (Some norm) (Some corr) → is_joint t = true →
               t = Variant Norm "joint") as Hjoint.
  { intros t Hin Hj. apply plan_some_some in Hin.
    destruct Hin as [->|[(which & -> & _)|(which & -> & Hin)]]; [done|..].
    - simpl in Hj. by apply bool_decide_eq_true in Hj as ->.
    - simpl in Hj. apply bool_decide_eq_true in Hj as ->.
      rewrite Forall_forall in Hcorr. apply Hcorr in Hin.
      repeat (apply elem_of_cons in Hin as [Hin|Hin]; [done|]).
      by apply elem_of_nil in Hin. }
  split; [done|]. split.
  - unfold plan, plan_norm, plan_corr. rewrite Hloop. simpl.
    rewrite !length_app, !length_map. case_bool_decide; simpl; lia.
  - intros t t' Hin Hin' Hsuf.
    apply (suffix_of_eq_iff "") in Hsuf as [->|[Hj Hj']]; [done|].
    by rewrite (Hjoint t Hin Hj), (Hjoint t' Hin' Hj').
Qed.

End PlannerProperties.

Lemma choices_make_the_skip_dead_witness :
  length (plan (Some ["joint"; "minent"]) (Some ["apc"])) = 5%nat.
Proof.
  refine (proj1 (proj2
    (choices_make_the_skip_dead ["joint"; "minent"] ["apc"] _ _))).
  - compute_done.
  - compute_done.
Defined.

(** * Further properties of the run *)

(** ** The calls of one task *)

Section CallLemmas.

Context {Alignment Matrix Entropy : Type}.
Context (env : Collaborators Alignment Matrix Entropy).
Context (kwargs : Kwargs).

Abbreviation locals := (locals Alignment Matrix Entropy).
Abbreviation expected l t :=
  (expected_call env kwargs (l_msa l) (l_mutinfo l) (l_prefix l) t).

Ltac unfold_run :=
  unfold select_matrix, get_entropy, maybe_save_figure, save_figure, render,
    try_except_ImportError, not_none, bind, call, ret, raise, set_setting,
    trace_of, outcome_of, settings_of.

Lemma select_matrix_calls t (l : locals) s :
  cache_ok env kwargs l →
  Forall (expected l t) (trace_of (select_matrix env kwargs t l s))
  ∧ artifacts (trace_of (select_matrix env kwargs t l s)) = []
  ∧ ∀ l1 matrix suffix,
      outcome_of (select_matrix env kwargs t l s) = Ok (l1, matrix, suffix) →
      matrix_of env kwargs (l_msa l) (l_mutinfo l) t = Ok matrix
      ∧ cache_ok env kwargs l1.
Proof.
  intros Hcache. destruct t as [|w which].
  { simpl. split; [constructor|]. split; [done|]. by intros ??? [= <- <- _]. }
  unfold expected_call, matrix_of, info_of, is_joint, needs_entropy.
  unfold_run. simpl. case_bool_decide as Hj.
  - destruct (buildMutinfoMatrix env (l_msa l) true kwargs); simpl;
      (split; [by repeat constructor|]); (split; [done|]);
      by intros ??? [= <- <- _].
  - destruct w.
    + destruct (l_entropy l) as [entropy|] eqn:Hl; simpl.
      * pose proof (Hcache entropy Hl) as Hent. rewrite Hent.
        destruct (applyMutinfoNorm env (l_mutinfo l) (Some entropy) which);
          simpl; (split; [by repeat constructor|]); (split; [done|]);
          by intros ??? [= <- <- _].
      * destruct (calcShannonEntropy env (l_msa l) kwargs) as [entropy|e]
          eqn:Hent; simpl.
        -- destruct (applyMutinfoNorm env (l_mutinfo l) entropy which); simpl;
             (split; [by repeat constructor|]); (split; [done|]).
           ++ intros ??? [= <- <- _]. split; [done|].
              intros entropy' Hl1. simpl in Hl1. by subst entropy.
           ++ by intros ??? [=].
        -- (split; [by repeat constructor|]); (split; [done|]).
           by intros ??? [=].
    + destruct (applyMutinfoCorr env (l_mutinfo l) which); simpl;
        (split; [by repeat constructor|]); (split; [done|]);
        by intros ??? [= <- <- _].
Qed.

Lemma maybe_save_figure_calls t (l : locals) matrix s :
  matrix_of env kwargs (l_msa l) (l_mutinfo l) t = Ok matrix →
  Forall (expected l t)
    (trace_of (maybe_save_figure env kwargs l matrix (suffix_of t) s))
  ∧ ∀ u,
      outcome_of (maybe_save_figure env kwargs l matrix (suffix_of t) s)
      = Ok u →
      if renders_figures env kwargs
      then ∃ format,
             kwargs_get (kw_figformat kwargs) (Some "pdf") = Some format
             ∧ is_Some (kwargs_get (kw_figargs kwargs) (Some []))
             ∧ artifacts
                 (trace_of
                    (maybe_save_figure env kwargs l matrix (suffix_of t) s))
               = [FigureFile (l_prefix l +:+ suffix_of t +:+ "." +:+ format)]
      else artifacts
             (trace_of (maybe_save_figure env kwargs l matrix (suffix_of t) s))
           = [].
Proof.
  intros Hm. unfold expected_call, renders_figures. unfold_run.
  destruct (truthy (kwargs_get (kw_figcoevol kwargs) None)) eqn:Hfig; simpl;
    [|by split; [constructor|]].
  destruct (import_pyplot env) as [u|e] eqn:Himp; simpl.
  2:{ destruct e; simpl; (split; [by repeat constructor|]); by intros ?. }
  destruct (plt_figure env _ _) as [?|?]; simpl;
    [|by split; [repeat constructor|]].
  destruct (kwargs_get (kw_figargs kwargs) (Some [])) as [figargs|] eqn:Hargs;
    simpl; [|by split; [repeat constructor|]].
  destruct (showMutinfoMatrix env matrix figargs (l_msa l)) as [?|?]; simpl;
    [|by split; [repeat constructor|]].
  destruct (kwargs_get (kw_figformat kwargs) (Some "pdf")) as [format|]
    eqn:Hformat; simpl; [|by split; [repeat constructor|]].
  destruct (savefig env _ format _) as [?|?]; simpl;
    (split; [by repeat constructor|]); [|done].
  intros ? _. by exists format.
Qed.

(** Every call of one pass through the loop body is an expected one. *)
Lemma run_task_calls t (l : locals) s :
  cache_ok env kwargs l →
  Forall (expected l t) (trace_of (run_task env kwargs t l s))
  ∧ ∀ l1,
      outcome_of (run_task env kwargs t l s) = Ok l1 →
      cache_ok env kwargs l1
      ∧ artifacts (trace_of (run_task env kwargs t l s))
        = artifacts_of_task (l_prefix l) (figure_format env kwargs) t
      ∧ (renders_figures env kwargs = true →
         is_Some (kwargs_get (kw_figformat kwargs) (Some "pdf"))
         ∧ is_Some (kwargs_get (kw_figargs kwargs) (Some []))).
Proof.
  intros Hcache. rewrite run_task_unfold.
  destruct (select_matrix_calls t l s Hcache) as (Hsel & Hart & Hok).
  destruct (select_matrix env kwargs t l s)
    as [[tr1 s1] [[[l1 matrix] suffix]|e]] eqn:Heq; [|by split].
  destruct (Hok l1 matrix suffix eq_refl) as [Hm Hcache1].
  unfold trace_of in Hsel, Hart. simpl in Hsel, Hart.
  apply select_matrix_ok in Heq as (-> & (Hmsa & Hmut & Hp) & _).
  cbv zeta. rewrite Hp.
  assert (expected l t
            (WriteArray (l_prefix l +:+ suffix_of t +:+ ".txt") matrix
               (kwargs_get (kw_numformat kwargs) (Some "%12g")),
             raised (writeArray env (l_prefix l +:+ suffix_of t +:+ ".txt")
                       matrix
                       (kwargs_get (kw_numformat kwargs) (Some "%12g")))))
    as Hwrite by done.
  destruct (writeArray env _ matrix _) as [u|e]; simpl in Hwrite.
  2:{ split; [|done]. unfold trace_of. simpl.
      apply Forall_app. split; [done|by repeat constructor]. }
  assert (matrix_of env kwargs (l_msa l1) (l_mutinfo l1) t = Ok matrix)
    as Hm1 by (by rewrite Hmsa, Hmut).
  destruct (maybe_save_figure_calls t l1 matrix s1 Hm1) as [Hfig Hfigok].
  rewrite Hmsa, Hmut, Hp in Hfig. rewrite Hp in Hfigok.
  destruct (maybe_save_figure env kwargs l1 matrix (suffix_of t) s1)
    as [[tr3 s3] [u'|e]] eqn:Heq3; unfold trace_of in *; simpl in *.
  - split; [apply Forall_app; split; [done|by constructor]|].
    intros ? [= <-]. split; [done|].
    specialize (Hfigok u' eq_refl). unfold artifacts, figure_format in *.
    rewrite omap_app, Hart. simpl.
    destruct (renders_figures env kwargs).
    + destruct Hfigok as (format & Hformat & Hargs & Hart3).
      rewrite Hformat. split; [unfold artifacts_of_task; f_equal; exact Hart3|].
      intros _. by split; [eexists|].
    + split; [unfold artifacts_of_task; f_equal; exact Hfigok|done].
  - split; [|done]. apply Forall_app. split; [done|by constructor].
Qed.

Lemma expected_same (l l' : locals) t e :
  same_inputs l l' → expected l' t e → expected l t e.
Proof. intros (-> & -> & ->). done. Qed.

(** Every call of the loop is an expected one for one of its tasks, and a
    loop that completes produced the files of its tasks, in order. *)
Lemma run_todo_calls todo (l : locals) s :
  cache_ok env kwargs l →
  Forall (λ e, ∃ t, t ∈ todo ∧ expected l t e)
    (trace_of (run_todo env kwargs todo l s))
  ∧ ∀ l',
      outcome_of (run_todo env kwargs todo l s) = Ok l' →
      artifacts (trace_of (run_todo env kwargs todo l s))
      = flat_map (artifacts_of_task (l_prefix l) (figure_format env kwargs))
          todo
      ∧ (todo ≠ [] → renders_figures env kwargs = true →
         is_Some (kwargs_get (kw_figformat kwargs) (Some "pdf"))
         ∧ is_Some (kwargs_get (kw_figargs kwargs) (Some []))).
Proof.
  revert l s. induction todo as [|t todo IH]; intros l s Hcache.
  { simpl. split; [constructor|]. by intros ? _. }
  rewrite run_todo_cons.
  destruct (run_task_calls t l s Hcache) as [Hcalls Hok].
  destruct (run_task env kwargs t l s) as [[tr1 s1] [l1|e]] eqn:Ht;
    unfold trace_of, outcome_of in *; simpl in *.
  - destruct (Hok l1 eq_refl) as (Hcache1 & Hart1 & Hfig1).
    destruct (IH l1 s1 Hcache1) as [Hcalls2 Hok2].
    apply run_task_ok in Ht as (Hin & _).
    split.
    + apply Forall_app. split.
      * eapply Forall_impl; [exact Hcalls|]. intros e He. exists t.
        split; [by left|done].
      * eapply Forall_impl; [exact Hcalls2|]. intros e (t' & Hin' & He).
        exists t'. split; [by right|]. by eapply expected_same.
    + intros l' Hl'. destruct (Hok2 l' Hl') as [Hart2 _].
      split; [|by intros _].
      unfold artifacts in *. rewrite omap_app, Hart1, Hart2.
      by destruct Hin as (_ & _ & ->).
  - split; [|done]. eapply Forall_impl; [exact Hcalls|]. intros e' He.
    exists t. split; [by left|done].
Qed.

(** Every call of a run is an expected one. *)
Lemma evol_coevol_calls msa s :
  Forall (expected_in_run env kwargs msa)
    (trace_of (evol_coevol env kwargs msa s)).
Proof.
  rewrite evol_coevol_unfold. cbv zeta.
  assert (∀ o, expected_in_run env kwargs msa (ParseMSA msa, o)) as HP
    by (by left).
  destruct (parseMSA env msa) as [a|e] eqn:Hparse.
  2:{ apply Forall_cons. split; [apply HP|constructor]. }
  assert (∀ o, expected_in_run env kwargs msa (BuildMutinfoMatrix a false, o))
    as HB.
  { intros o. right. exists a. split; [done|by left]. }
  destruct (buildMutinfoMatrix env a false kwargs) as [mutinfo|e] eqn:Hbuild.
  2:{ apply Forall_cons. split; [apply HP|].
      apply Forall_cons. split; [apply HB|constructor]. }
  assert (∀ t e, t ∈ todo_of kwargs →
                 expected_call env kwargs a mutinfo (prefix_of kwargs msa) t e →
                 expected_in_run env kwargs msa e) as HT.
  { intros t e Hin He. right. exists a. split; [done|]. right.
    by exists mutinfo, t. }
  assert (∀ o, expected_in_run env kwargs msa
                 (WriteArray (prefix_of kwargs msa +:+ ".txt") mutinfo
                    (kwargs_get (kw_numformat kwargs) (Some "%12g")), o))
    as HW.
  { intros o. apply (HT Base); [by left|]. by repeat split. }
  destruct (writeArray env _ mutinfo _) as [u|e].
  2:{ apply Forall_cons. split; [apply HP|].
      apply Forall_cons. split; [apply HB|].
      apply Forall_cons. split; [apply HW|constructor]. }
  unfold trace_of. simpl.
  apply Forall_cons. split; [apply HP|].
  apply Forall_cons. split; [apply HB|].
  apply Forall_cons. split; [apply HW|].
  destruct (run_todo_calls (todo_of kwargs)
              (initial_locals (prefix_of kwargs msa) a mutinfo None) s)
    as [Hcalls _]; [by intros ? [=]|].
  eapply Forall_impl; [exact Hcalls|]. intros e (t & Hin & He).
  by apply (HT t).
Qed.

(** The tasks of a run come from the requested names. *)
Lemma elem_of_todo_norm which :
  Variant Norm which ∈ todo_of kwargs →
  ∃ norm, kw_normalization kwargs = Val norm ∧ which ∈ norm
          ∧ which ≠ "join".
Proof.
  unfold todo_of, plan. rewrite !elem_of_app, list_elem_of_singleton.
  intros [[=]|[Hn|Hc]].
  - destruct (kw_normalization kwargs) as [| |norm]; simpl in Hn;
      [by apply elem_of_nil in Hn..|].
    exists norm. split; [done|]. unfold plan_norm in Hn.
    apply elem_of_app in Hn as [Hj|Hl].
    + case_bool_decide; [|by apply elem_of_nil in Hj].
      by apply list_elem_of_singleton in Hj as [= ->].
    + by apply elem_of_norm_loop in Hl as (? & [= <-] & ? & ?).
  - destruct (kwargs_get (kw_correction kwargs) (Some [])) as [corr|];
      [|by apply elem_of_nil in Hc].
    by apply list_elem_of_fmap in Hc as (? & [=] & _).
Qed.

Lemma elem_of_todo_corr which :
  Variant Corr which ∈ todo_of kwargs →
  ∃ corr, kw_correction kwargs = Val corr ∧ which ∈ corr.
Proof.
  unfold todo_of, plan. rewrite !elem_of_app, list_elem_of_singleton.
  intros [[=]|[Hn|Hc]].
  - destruct (kwargs_get (kw_normalization kwargs) (Some [])) as [norm|];
      [|by apply elem_of_nil in Hn].
    unfold plan_norm in Hn. apply elem_of_app in Hn as [Hj|Hl].
    + case_bool_decide; [|by apply elem_of_nil in Hj].
      by apply list_elem_of_singleton in Hj.
    + by apply elem_of_norm_loop in Hl as (? & [=] & _).
  - destruct (kw_correction kwargs) as [| |corr]; simpl in Hc;
      [by apply elem_of_nil in Hc..|].
    exists corr. split; [done|].
    by apply list_elem_of_fmap in Hc as (? & [= <-] & ?).
Qed.

End CallLemmas.

(** ** What a run calls, and with what *)

Section RunProperties.

Context {Alignment Matrix Entropy : Type}.
Context (env : Collaborators Alignment Matrix Entropy).
Context (kwargs : Kwargs).

Abbreviation entry := (entry Alignment Matrix Entropy).

Lemma expected_in_run_inv msa (e : entry) :
  e.1 ≠ ParseMSA msa →
  (∀ a, e.1 ≠ BuildMutinfoMatrix a false) →
  expected_in_run env kwargs msa e →
  ∃ a mutinfo t,
    parseMSA env msa = Ok a
    ∧ buildMutinfoMatrix env a false kwargs = Ok mutinfo
    ∧ t ∈ todo_of kwargs
    ∧ expected_call env kwargs a mutinfo (prefix_of kwargs msa) t e.
Proof.
  intros Hp Hb [?|(a & Ha & [?|(mutinfo & t & ? & ? & ?)])]; [done| |].
  - by destruct (Hb a).
  - by exists a, mutinfo, t.
Qed.

(** X5.  The kernels are called only for requested names, and never for
    ["joint"]: [applyMutinfoNorm] for a requested normalization other than
    ["joint"] and ["join"], [applyMutinfoCorr] for a requested correction
    other than ["joint"], and the jointly normalized matrix is built only if
    ["joint"] was requested, as a normalization or as a correction. *)
Theorem kernels_called_only_as_requested msa s (e : entry) :
  e ∈ trace_of (evol_coevol env kwargs msa s) →
  match e.1 with
  | ApplyMutinfoNorm _ _ which =>
      which ≠ "joint" ∧ which ≠ "join"
      ∧ ∃ norm, kw_normalization kwargs = Val norm ∧ which ∈ norm
  | ApplyMutinfoCorr _ which =>
      which ≠ "joint"
      ∧ ∃ corr, kw_correction kwargs = Val corr ∧ which ∈ corr
  | BuildMutinfoMatrix _ true =>
      (∃ norm, kw_normalization kwargs = Val norm ∧ "joint" ∈ norm)
      ∨ (∃ corr, kw_correction kwargs = Val corr ∧ "joint" ∈ corr)
  | _ => True
  end.
Proof.
  intros Hin.
  pose proof (evol_coevol_calls env kwargs msa s) as Hcalls.
  rewrite Forall_forall in Hcalls. apply Hcalls in Hin as Hexp.
  destruct e as [[| a' [] | | | | | | | | | |] o]; simpl; try done.
  - apply expected_in_run_inv in Hexp
      as (a & mutinfo & t & _ & _ & Ht & (_ & _ & Hj)); [|done..].
    destruct t as [|[] which]; simpl in Hj; [done|..];
      apply bool_decide_eq_true in Hj as ->.
    + apply elem_of_todo_norm in Ht as (norm & ? & ? & _). left. eauto.
    + apply elem_of_todo_corr in Ht as (corr & ? & ?). right. eauto.
  - apply expected_in_run_inv in Hexp
      as (a & m & t & _ & _ & Ht & (_ & _ & -> & Hj)); [|done..].
    apply elem_of_todo_norm in Ht as (norm' & ? & ? & ?). eauto 6.
  - apply expected_in_run_inv in Hexp
      as (a & m & t & _ & _ & Ht & (_ & -> & Hj)); [|done..].
    apply elem_of_todo_corr in Ht as (corr & ? & ?). eauto.
Qed.

(** X6.  Every kernel works on the shared inputs of the run: the joint
    matrix and the entropy are computed from the parsed alignment, every
    normalization is applied to the base matrix and to the entropy of that
    alignment, every correction to the base matrix, and every figure is
    drawn with that alignment. *)
Theorem kernels_get_the_shared_inputs msa s a mutinfo (e : entry) :
  parseMSA env msa = Ok a →
  buildMutinfoMatrix env a false kwargs = Ok mutinfo →
  e ∈ trace_of (evol_coevol env kwargs msa s) →
  match e.1 with
  | BuildMutinfoMatrix msa' _ => msa' = a
  | CalcShannonEntropy msa' => msa' = a
  | ApplyMutinfoNorm mutinfo' entropy _ =>
      mutinfo' = mutinfo ∧ calcShannonEntropy env a kwargs = Ok entropy
  | ApplyMutinfoCorr mutinfo' _ => mutinfo' = mutinfo
  | ShowMutinfoMatrix _ _ msa' => msa' = a
  | _ => True
  end.
Proof.
  intros Hparse Hbuild Hin.
  pose proof (evol_coevol_calls env kwargs msa s) as Hcalls.
  rewrite Forall_forall in Hcalls. apply Hcalls in Hin as Hexp.
  destruct e as [[| a' n | | | | | | | | | |] o]; simpl; try done.
  - destruct Hexp as [[=]|(a0 & Ha0 & [[= -> _]|(m & t & Hm & _ & Hexp)])];
      simpl in *; [congruence|].
    destruct Hexp as (-> & _). congruence.
  - apply expected_in_run_inv in Hexp
      as (a0 & m & t & ? & ? & _ & (-> & _)); [|done..]. congruence.
  - apply expected_in_run_inv in Hexp
      as (a0 & m & t & ? & ? & _ & (-> & Hent & _)); [|done..].
    split; congruence.
  - apply expected_in_run_inv in Hexp
      as (a0 & m & t & ? & ? & _ & (-> & _)); [|done..]. congruence.
  - apply expected_in_run_inv in Hexp
      as (a0 & m & t & ? & ? & _ & (_ & _ & _ & ->)); [|done..]. congruence.
Qed.

Lemma matrix_of_joint a mutinfo t t' :
  is_joint t = true → is_joint t' = true →
  matrix_of env kwargs a mutinfo t = matrix_of env kwargs a mutinfo t'.
Proof.
  destruct t as [|w which], t' as [|w' which']; simpl; try done.
  by intros -> ->.
Qed.

(** X7.  Every [writeArray] call of a run writes, with the configured
    number format, at the text path of a planned task, and what it writes
    there is the matrix of whichever planned task has that path: the base
    matrix, the jointly normalized matrix, the normalization of the base
    matrix by the entropy of the alignment, or the correction of the base
    matrix.  So two writes to one path write the same array. *)
Theorem every_file_holds_its_matrix msa s a mutinfo filename array format o :
  let prefix := prefix_of kwargs msa in
  parseMSA env msa = Ok a →
  buildMutinfoMatrix env a false kwargs = Ok mutinfo →
  (WriteArray filename array format, o)
  ∈ trace_of (evol_coevol env kwargs msa s) →
  format = kwargs_get (kw_numformat kwargs) (Some "%12g")
  ∧ (∃ t, t ∈ todo_of kwargs ∧ filename = prefix +:+ suffix_of t +:+ ".txt")
  ∧ (∀ t, t ∈ todo_of kwargs →
          filename = prefix +:+ suffix_of t +:+ ".txt" →
          matrix_of env kwargs a mutinfo t = Ok array)
  ∧ (∀ array' format' o',
       (WriteArray filename array' format', o')
       ∈ trace_of (evol_coevol env kwargs msa s) →
       array' = array ∧ format' = format).
Proof.
  intros prefix Hparse Hbuild Hin.
  pose proof (evol_coevol_calls env kwargs msa s) as Hcalls.
  rewrite Forall_forall in Hcalls.
  assert (∀ array0 format0 o0,
            (WriteArray filename array0 format0, o0)
            ∈ trace_of (evol_coevol env kwargs msa s) →
            format0 = kwargs_get (kw_numformat kwargs) (Some "%12g")
            ∧ ∃ t, t ∈ todo_of kwargs
                   ∧ filename = prefix +:+ suffix_of t +:+ ".txt"
                   ∧ matrix_of env kwargs a mutinfo t = Ok array0) as Hone.
  { intros array0 format0 o0 Hin0. apply Hcalls in Hin0.
    apply expected_in_run_inv in Hin0
      as (a0 & m0 & t & Ha0 & Hm0 & Ht & (Hp & Hm & Hf)); [|done..].
    rewrite Hparse in Ha0. injection Ha0 as <-.
    rewrite Hbuild in Hm0. injection Hm0 as <-. eauto. }
  assert (∀ array0 t t',
            t ∈ todo_of kwargs →
            filename = prefix +:+ suffix_of t +:+ ".txt" →
            filename = prefix +:+ suffix_of t' +:+ ".txt" →
            matrix_of env kwargs a mutinfo t' = Ok array0 →
            matrix_of env kwargs a mutinfo t = Ok array0) as Hsame.
  { intros array0 t t' _ -> Heq Hm.
    apply suffix_of_eq_iff in Heq as [->|[Hj Hj']]; [done|].
    by rewrite (matrix_of_joint a mutinfo t t'). }
  destruct (Hone array format o Hin) as (-> & t0 & Ht0 & Hp0 & Hm0).
  split; [done|]. split; [eauto|]. split.
  - intros t Ht Hp. exact (Hsame array t t0 Ht Hp Hp0 Hm0).
  - intros array' format' o' Hin'.
    destruct (Hone array' format' o' Hin') as (-> & t1 & Ht1 & Hp1 & Hm1).
    split; [|done].
    pose proof (Hsame array' t0 t1 Ht0 Hp0 Hp1 Hm1) as Hm0'. congruence.
Qed.

(** X8.  The files of a run that returns, in the order they are produced:
    the base text file, then for each task in turn its text file followed,
    when figures are rendered, by its figure at [prefix + suffix + "." +
    format]; one figure per task, none for the write made before the
    loop. *)
Theorem artifacts_of_a_run msa s :
  let run := evol_coevol env kwargs msa s in
  let prefix := prefix_of kwargs msa in
  outcome_of run = Ok tt →
  artifacts (trace_of run)
  = TextFile (prefix +:+ ".txt")
    :: flat_map (artifacts_of_task prefix (figure_format env kwargs))
         (todo_of kwargs)
  ∧ (renders_figures env kwargs = true →
     is_Some (figure_format env kwargs)).
Proof.
  intros run prefix. unfold run. rewrite evol_coevol_unfold. cbv zeta.
  destruct (parseMSA env msa) as [a|e]; [|done].
  destruct (buildMutinfoMatrix env a false kwargs) as [mutinfo|e]; [|done].
  destruct (writeArray env _ mutinfo _) as [u|e]; [|done].
  destruct (run_todo_calls env kwargs (todo_of kwargs)
              (initial_locals (prefix_of kwargs msa) a mutinfo None) s)
    as [_ Hok]; [by intros ? [=]|].
  destruct (run_todo env kwargs (todo_of kwargs) _ s) as [[tr s'] [l'|e]];
    [|done].
  unfold trace_of, outcome_of in *. simpl in *. intros _.
  destruct (Hok l' eq_refl) as [-> Hfmt]. split; [done|].
  intros Hr. unfold figure_format. rewrite Hr. by apply Hfmt.
Qed.

(** X9.  Figure activity is gated.  The import is attempted only when
    figures are requested; the warning is logged only when that import
    raised [ImportError]; [plt.figure], [showMutinfoMatrix] and
    [figure.savefig] are called only when figures are requested and the
    import worked, with the configured size, extra arguments, format and
    resolution (8 by 6, none, ["pdf"] and 300 when the keys are missing),
    the figure of a planned task going to [prefix + suffix + "." + format]. *)
Theorem figure_activity_is_gated msa s (e : entry) :
  e ∈ trace_of (evol_coevol env kwargs msa s) →
  match e.1 with
  | ImportPyplot => truthy (kwargs_get (kw_figcoevol kwargs) None) = true
  | LoggerWarn msg =>
      msg = MatplotlibNotImported
      ∧ truthy (kwargs_get (kw_figcoevol kwargs) None) = true
      ∧ import_pyplot env = Raise ImportError
  | PltFigure width height =>
      renders_figures env kwargs = true
      ∧ width = kwargs_get (kw_figwidth kwargs) (Some 8%Q)
      ∧ height = kwargs_get (kw_figheight kwargs) (Some 6%Q)
  | ShowMutinfoMatrix _ figargs _ =>
      renders_figures env kwargs = true
      ∧ kwargs_get (kw_figargs kwargs) (Some []) = Some figargs
  | Savefig filename format dpi =>
      renders_figures env kwargs = true
      ∧ kwargs_get (kw_figformat kwargs) (Some "pdf") = Some format
      ∧ dpi = kwargs_get (kw_figdpi kwargs) (Some 300%Q)
      ∧ ∃ t, t ∈ todo_of kwargs
             ∧ filename
               = prefix_of kwargs msa +:+ suffix_of t +:+ "." +:+ format
  | _ => True
  end.
Proof.
  intros Hin.
  pose proof (evol_coevol_calls env kwargs msa s) as Hcalls.
  rewrite Forall_forall in Hcalls. apply Hcalls in Hin as Hexp.
  destruct e as [[] o]; simpl; try done;
    apply expected_in_run_inv in Hexp
      as (a & mutinfo & t & _ & _ & Ht & Hexp); try done;
    unfold expected_call in Hexp; simpl in Hexp.
  - by destruct Hexp as (? & _ & ? & _).
  - destruct Hexp as (? & _ & ? & -> & ?). eauto 8.
Qed.

End RunProperties.

(** ** Exceptions *)

Section Exceptions.

Context {Alignment Matrix Entropy : Type}.
Context (env : Collaborators Alignment Matrix Entropy).
Context (kwargs : Kwargs).

Abbreviation M := (M Alignment Matrix Entropy).
Abbreviation locals := (locals Alignment Matrix Entropy).

Lemma propagates_ret {A} (a : A) s : propagates ((ret a : M A) s).
Proof. unfold propagates. simpl. constructor. Qed.

Lemma propagates_call {A} ev (r : result A) s :
  propagates ((call ev r : M A) s).
Proof.
  unfold propagates, call. destruct r as [a|e]; simpl.
  - apply Forall_cons. split; [by left|constructor].
  - left. exists [], ev. by split; [|constructor].
Qed.

Lemma propagates_not_none {A} (v : option A) s :
  propagates ((not_none v : M A) s).
Proof.
  unfold propagates, not_none. destruct v; simpl; [constructor|].
  right. by split; [|constructor].
Qed.

Lemma propagates_bind {A B} (m : M A) (k : A → M B) s :
  propagates (m s) → (∀ a s1, propagates (k a s1)) → propagates (bind m k s).
Proof.
  unfold propagates, bind. intros Hm Hk.
  destruct (m s) as [[tr s1] [a|e]]; simpl in *; [|done].
  specialize (Hk a s1). destruct (k a s1) as [[tr' s2] [b|e]]; simpl in *.
  - by apply Forall_app.
  - destruct Hk as [(tr0 & ev & -> & Htr0)|[-> Htr']].
    + left. exists (tr ++ tr0)%list, ev. rewrite app_assoc.
      split; [done|]. by apply Forall_app.
    + right. split; [done|]. by apply Forall_app.
Qed.

Lemma propagates_select_matrix t (l : locals) s :
  propagates (select_matrix env kwargs t l s).
Proof.
  destruct t as [|w which]; simpl; [apply propagates_ret|].
  case_bool_decide; [|destruct w].
  - repeat (apply propagates_bind; [apply propagates_call|intros ??]).
    apply propagates_ret.
  - apply propagates_bind; [apply propagates_call|intros ??].
    apply propagates_bind.
    + unfold get_entropy. destruct (l_entropy l); [apply propagates_ret|].
      apply propagates_bind; [apply propagates_call|intros ??].
      apply propagates_ret.
    + intros [l1 entropy] s2.
      apply propagates_bind; [apply propagates_call|intros ??].
      apply propagates_ret.
  - repeat (apply propagates_bind; [apply propagates_call|intros ??]).
    apply propagates_ret.
Qed.

Lemma propagates_render (l : locals) matrix suffix s :
  propagates (render env kwargs l matrix suffix s).
Proof.
  unfold render.
  apply propagates_bind; [unfold propagates, set_setting; simpl; constructor|].
  intros ??. cbv zeta.
  apply propagates_bind; [apply propagates_call|intros ??].
  apply propagates_bind; [apply propagates_not_none|intros ??].
  apply propagates_bind; [apply propagates_call|intros ??].
  apply propagates_bind; [apply propagates_not_none|intros ??].
  apply propagates_call.
Qed.

Lemma propagates_maybe_save_figure (l : locals) matrix suffix s :
  propagates (maybe_save_figure env kwargs l matrix suffix s).
Proof.
  unfold maybe_save_figure.
  destruct (truthy _); [|apply propagates_ret].
  pose proof (propagates_render l matrix suffix s) as Hr.
  unfold save_figure, try_except_ImportError, call, propagates in *.
  destruct (import_pyplot env) as [u|e]; simpl.
  - destruct (render env kwargs l matrix suffix s) as [[tr s'] [?|x]];
      simpl in *.
    + constructor; [by left|done].
    + destruct Hr as [(tr0 & ev & -> & Htr0)|[-> Htr]].
      * left. exists ((ImportPyplot, None) :: tr0), ev.
        split; [done|]. constructor; [by left|done].
      * right. split; [done|]. constructor; [by left|done].
  - destruct e; simpl.
    + apply Forall_cons. split; [by right|].
      apply Forall_cons. split; [by left|constructor].
    + left. exists [], ImportPyplot. by split; [|constructor].
    + left. exists [], ImportPyplot. by split; [|constructor].
Qed.

Lemma propagates_run_task t (l : locals) s :
  propagates (run_task env kwargs t l s).
Proof.
  unfold run_task.
  apply propagates_bind; [apply propagates_select_matrix|].
  intros [[l1 matrix] suffix] s1. cbv zeta.
  apply propagates_bind; [apply propagates_call|intros ??].
  apply propagates_bind; [apply propagates_maybe_save_figure|intros ??].
  apply propagates_ret.
Qed.

Lemma propagates_run_todo todo (l : locals) s :
  propagates (run_todo env kwargs todo l s).
Proof.
  revert l s. induction todo as [|t todo IH]; intros l s; simpl.
  - apply propagates_ret.
  - apply propagates_bind; [apply propagates_run_task|done].
Qed.

(** X10.  Exceptions propagate.  In a run that returns, no call raised
    except, possibly, the import raising [ImportError].  A run that raises
    [x] stopped at the call that raised [x], which is the last of its
    trace, or else [x] is [TypeError], the exception the function raises
    itself; before that, no call raised except the import raising
    [ImportError]. *)
Theorem exceptions_propagate msa s :
  let run := evol_coevol env kwargs msa s in
  match outcome_of run with
  | Ok _ => Forall survivable (trace_of run)
  | Raise x =>
      (∃ tr ev, trace_of run = (tr ++ [(ev, Some x)])%list
                ∧ Forall survivable tr)
      ∨ (x = TypeError ∧ Forall survivable (trace_of run))
  end.
Proof.
  change (propagates (evol_coevol env kwargs msa s)).
  unfold evol_coevol. cbv zeta.
  apply propagates_bind; [apply propagates_call|intros ??].
  apply propagates_bind; [apply propagates_call|intros ??].
  apply propagates_bind; [apply propagates_call|intros ??].
  apply propagates_bind; [apply propagates_run_todo|intros ??].
  apply propagates_ret.
Qed.

Lemma maybe_save_figure_total (l : locals) matrix suffix s :
  figure_side_ok env kwargs →
  ∃ tr s',
    maybe_save_figure env kwargs l matrix suffix s = (tr, s', Ok tt).
Proof.
  unfold figure_side_ok, maybe_save_figure. intros Hside.
  destruct (truthy _); [|by eexists _, _].
  specialize (Hside eq_refl).
  unfold save_figure, try_except_ImportError, call.
  destruct (import_pyplot env) as [u|e]; simpl.
  - destruct Hside as ((Hfig & Hshow & Hsave) & [figargs Hargs] & [format Hfmt]).
    unfold render, bind, call, not_none, set_setting, ret. simpl.
    destruct (Hfig (kwargs_get (kw_figwidth kwargs) (Some 8%Q))
                (kwargs_get (kw_figheight kwargs) (Some 6%Q))) as [[] ->].
    simpl. rewrite Hargs. simpl.
    destruct (Hshow matrix figargs (l_msa l)) as [[] ->]. simpl.
    rewrite Hfmt. simpl.
    destruct (Hsave (l_prefix l +:+ suffix +:+ "." +:+ format) format
                (kwargs_get (kw_figdpi kwargs) (Some 300%Q))) as [[] ->].
    by eexists _, _.
  - subst e. by eexists _, _.
Qed.

Lemma run_todo_total todo (l : locals) s :
  no_fatal_error env kwargs →
  figure_side_ok env kwargs →
  ∃ tr s' l', run_todo env kwargs todo l s = (tr, s', Ok l').
Proof.
  intros Hok Hside. revert l s.
  induction todo as [|t todo IH]; intros l s; [by eexists _, _, _|].
  rewrite run_todo_cons, run_task_unfold.
  destruct (select_matrix_total env kwargs t l s Hok)
    as (tr1 & l1 & matrix & ->). cbv zeta.
  destruct Hok as (_ & _ & _ & _ & _ & Hwrite).
  destruct (Hwrite (l_prefix l1 +:+ suffix_of t +:+ ".txt") matrix
              (kwargs_get (kw_numformat kwargs) (Some "%12g"))) as [[] ->].
  destruct (maybe_save_figure_total l1 matrix (suffix_of t) s Hside)
    as (tr3 & s3 & ->).
  destruct (IH l1 s3) as (tr & s' & l' & ->). by eexists _, _, _.
Qed.

(** X11.  A run returns whenever no collaborator raises: parsing, the
    numerical routines and [writeArray] never raise, and on the figure side
    figures are not requested, or the import raises [ImportError], or the
    import works, the figure calls never raise and neither [figargs] nor
    [figformat] is [None]. *)
Theorem run_returns_when_nothing_raises msa s :
  no_fatal_error env kwargs →
  figure_side_ok env kwargs →
  outcome_of (evol_coevol env kwargs msa s) = Ok tt.
Proof.
  intros Hok Hside. rewrite evol_coevol_unfold. cbv zeta.
  pose proof Hok as (Hparse & Hbuild & _ & _ & _ & Hwrite).
  destruct (Hparse msa) as [a ->]. destruct (Hbuild a false) as [mutinfo ->].
  destruct (Hwrite (prefix_of kwargs msa +:+ ".txt") mutinfo
              (kwargs_get (kw_numformat kwargs) (Some "%12g"))) as [[] ->].
  destruct (run_todo_total (todo_of kwargs)
              (initial_locals (prefix_of kwargs msa) a mutinfo None) s
              Hok Hside) as (tr & s' & l' & ->).
  done.
Qed.

(** X12.  [figargs] or [figformat] bound to [None] (not missing) blocks
    every figure: no run ever calls [figure.savefig], and a run that gets to
    render a figure does not return. *)
Theorem none_options_block_figures msa s :
  let run := evol_coevol env kwargs msa s in
  kw_figargs kwargs = PyNone ∨ kw_figformat kwargs = PyNone →
  (∀ e filename format dpi, e ∈ trace_of run →
                            e.1 ≠ Savefig filename format dpi)
  ∧ (renders_figures env kwargs = true → outcome_of run ≠ Ok tt).
Proof.
  intros run Hnone.
  assert (¬ (is_Some (kwargs_get (kw_figformat kwargs) (Some "pdf"))
             ∧ is_Some (kwargs_get (kw_figargs kwargs) (Some []))))
    as Hnot.
  { intros [[? Hf] [? Ha]]. destruct Hnone as [H|H]; rewrite H in *; done. }
  split.
  - intros [ev o] filename format dpi Hin Hev. simpl in Hev. subst ev.
    pose proof (evol_coevol_calls env kwargs msa s) as Hcalls.
    rewrite Forall_forall in Hcalls. apply Hcalls in Hin.
    destruct Hin as [[=]|(a & _ & [[=]|(m & t & _ & _ & Hexp)])].
    destruct Hexp as (_ & ? & Hf & _). apply Hnot. by split; [eexists|].
  - intros Hr Hout. apply Hnot. unfold run in Hout.
    rewrite evol_coevol_unfold in Hout. cbv zeta in Hout.
    destruct (parseMSA env msa) as [a|e]; [|done].
    destruct (buildMutinfoMatrix env a false kwargs) as [mutinfo|e]; [|done].
    destruct (writeArray env _ mutinfo _) as [u|e]; [|done].
    destruct (run_todo_calls env kwargs (todo_of kwargs)
                (initial_locals (prefix_of kwargs msa) a mutinfo None) s)
      as [_ Hok]; [by intros ? [=]|].
    destruct (run_todo env kwargs (todo_of kwargs) _ s) as [[tr s'] [l'|e]];
      [|done].
    by apply (Hok l' eq_refl).
Qed.

End Exceptions.

(** ** The default prefix *)

Section PrefixProperties.

Import Path.

Lemma append_nil_r a : a +:+ "" = a.
Proof.
  induction a as [|x a IH]; [done|]. rewrite append_cons. by rewrite IH.
Qed.

Lemma append_assoc a b c : (a +:+ b) +:+ c = a +:+ b +:+ c.
Proof.
  induction a as [|x a IH]; [done|]. rewrite !append_cons. by rewrite IH.
Qed.

Lemma str_take_drop n p : str_take n p +:+ str_drop n p = p.
Proof.
  revert p. induction n as [|n IH]; intros [|x p]; simpl; try done.
  rewrite append_cons. by rewrite IH.
Qed.

Lemma rfind_drop c n p :
  rfind c p < Z.of_nat n → rfind c (str_drop n p) = -1.
Proof.
  revert p. induction n as [|n IH]; intros p Hlt.
  - pose proof (rfind_bounds c p). destruct p; simpl in *; lia.
  - destruct p as [|x p]; [done|]. simpl in *. apply IH.
    pose proof (rfind_bounds c p).
    destruct (Z.leb_spec 0 (rfind c p)); lia.
Qed.

Lemma splitext_loop_cases p extsep n filenameIndex dotIndex :
  splitext_loop p extsep n filenameIndex dotIndex = (p, "")
  ∨ splitext_loop p extsep n filenameIndex dotIndex
    = (str_take (Z.to_nat dotIndex) p, str_drop (Z.to_nat dotIndex) p).
Proof.
  revert filenameIndex. induction n as [|n IH]; intros i; simpl; [by left|].
  destruct (slice1_differs p i extsep); [by right|apply IH].
Qed.

(** What [splitext] splits off is a tail of the name without ["/"]. *)
Lemma splitext_spec p :
  p = (splitext p).1 +:+ (splitext p).2 ∧ rfind "/"%char (splitext p).2 = -1.
Proof.
  unfold splitext, genericpath_splitext.
  destruct (Z.ltb_spec (rfind "/"%char p) (rfind "."%char p)) as [Hlt|Hge].
  - destruct (splitext_loop_cases p "."%char
                (Z.to_nat (rfind "."%char p - (rfind "/"%char p + 1)))
                (rfind "/"%char p + 1) (rfind "."%char p)) as [-> | ->];
      simpl.
    + by rewrite append_nil_r.
    + split; [by rewrite str_take_drop|]. apply rfind_drop.
      pose proof (rfind_bounds "/"%char p). lia.
  - simpl. by rewrite append_nil_r.
Qed.

(** X13.  An explicit prefix is used as it is, whatever the file name.
    Without one, the prefix is the file name cut before a tail that
    contains no ["/"], followed by ["_mutinfo"]: the output files are
    created in the directory of the input file, under its name shortened
    by extensions only. *)
Theorem prefix_keeps_the_directory (kwargs : Kwargs) msa :
  (∀ prefix, kw_prefix kwargs = Val prefix → prefix_of kwargs msa = prefix)
  ∧ (kwargs_get (kw_prefix kwargs) None = None →
     ∃ root tail,
       msa = root +:+ tail
       ∧ rfind "/"%char tail = -1
       ∧ prefix_of kwargs msa = root +:+ "_mutinfo").
Proof.
  unfold prefix_of. split; [by intros prefix ->|intros ->].
  unfold default_prefix.
  destruct (splitext_spec msa) as [Hmsa Hslash].
  destruct (splitext msa) as [root ext]. simpl in *.
  destruct (String.eqb (lower ext) ".gz").
  - destruct (splitext_spec root) as [Hroot Hslash'].
    exists (splitext root).1, ((splitext root).2 +:+ ext).
    rewrite <-append_assoc, <-Hroot. split; [done|]. split; [|done].
    rewrite rfind_app, Hslash. simpl. done.
  - by exists root, ext.
Qed.

End PrefixProperties.

(** ** The further properties on runs of the concrete collaborators *)

(** X5: a correction named ["joint"] builds the jointly normalized matrix. *)
Lemma kernels_called_only_as_requested_witness :
  let kw := Demo.kwargs (Val "p") PyNone (Val ["joint"]) PyNone in
  (∃ norm, kw_normalization kw = Val norm ∧ "joint" ∈ norm)
  ∨ (∃ corr, kw_correction kw = Val corr ∧ "joint" ∈ corr).
Proof.
  intros kw.
  apply (kernels_called_only_as_requested (Demo.env (Ok tt) (λ _, Ok tt)) kw
           "piwi_refined.slx" Demo.settings0
           (BuildMutinfoMatrix "msa(piwi_refined.slx)" true, None)).
  apply list_elem_of_lookup. by exists 5%nat.
Defined.

Lemma kernels_get_the_shared_inputs_witness :
  let kw := Demo.kwargs (Val "p") (Val ["minent"]) PyNone PyNone in
  "mutinfo(msa(piwi_refined.slx))" = "mutinfo(msa(piwi_refined.slx))"
  ∧ calcShannonEntropy (Demo.env (Ok tt) (λ _, Ok tt)) "msa(piwi_refined.slx)"
      kw
    = Ok (Some "entropy(msa(piwi_refined.slx))").
Proof.
  intros kw.
  apply (kernels_get_the_shared_inputs (Demo.env (Ok tt) (λ _, Ok tt)) kw
           "piwi_refined.slx" Demo.settings0 "msa(piwi_refined.slx)"
           "mutinfo(msa(piwi_refined.slx))"
           (ApplyMutinfoNorm "mutinfo(msa(piwi_refined.slx))"
              (Some "entropy(msa(piwi_refined.slx))") "minent", None)
           eq_refl eq_refl).
  apply list_elem_of_lookup. by exists 6%nat.
Defined.

Lemma every_file_holds_its_matrix_witness :
  let kw := Demo.kwargs (Val "p") (Val ["minent"]) PyNone PyNone in
  matrix_of (Demo.env (Ok tt) (λ _, Ok tt)) kw "msa(piwi_refined.slx)"
    "mutinfo(msa(piwi_refined.slx))" (Variant Norm "minent")
  = Ok "minent(mutinfo(msa(piwi_refined.slx)),entropy(msa(piwi_refined.slx)))".
Proof.
  intros kw.
  refine (proj1 (proj2 (proj2
    (every_file_holds_its_matrix (Demo.env (Ok tt) (λ _, Ok tt)) kw
       "piwi_refined.slx" Demo.settings0 "msa(piwi_refined.slx)"
       "mutinfo(msa(piwi_refined.slx))" "p_norm_minent.txt"
       "minent(mutinfo(msa(piwi_refined.slx)),entropy(msa(piwi_refined.slx)))"
       (Some "%12g") None eq_refl eq_refl _)))
    (Variant Norm "minent") _ eq_refl).
  - apply list_elem_of_lookup. by exists 7%nat.
  - apply list_elem_of_lookup. by exists 1%nat.
Defined.

Lemma artifacts_of_a_run_witness :
  artifacts
    (trace_of
       (evol_coevol (Demo.env (Ok tt) (λ _, Ok tt))
          (Demo.kwargs (Val "p") (Val ["minent"]) PyNone (Val true))
          "piwi_refined.slx" Demo.settings0))
  = [TextFile "p.txt"; TextFile "p.txt"; FigureFile "p.pdf";
     TextFile "p_norm_minent.txt"; FigureFile "p_norm_minent.pdf"].
Proof.
  exact (proj1
    (artifacts_of_a_run (Demo.env (Ok tt) (λ _, Ok tt))
       (Demo.kwargs (Val "p") (Val ["minent"]) PyNone (Val true))
       "piwi_refined.slx" Demo.settings0 eq_refl)).
Defined.

Lemma figure_activity_is_gated_witness :
  let env := Demo.env (Raise ImportError) (λ _, Ok tt) in
  let kw := Demo.kwargs (Val "p") PyNone PyNone (Val true) in
  MatplotlibNotImported = MatplotlibNotImported
  ∧ truthy (kwargs_get (kw_figcoevol kw) None) = true
  ∧ import_pyplot env = Raise ImportError.
Proof.
  intros env kw.
  apply (figure_activity_is_gated env kw "piwi_refined.slx" Demo.settings0
           (LoggerWarn MatplotlibNotImported, None)).
  apply list_elem_of_lookup. by exists 5%nat.
Defined.

Lemma run_returns_when_nothing_raises_witness :
  outcome_of
    (evol_coevol (Demo.env (Ok tt) (λ _, Ok tt))
       (Demo.kwargs (Val "p") (Val ["joint"; "minent"]) (Val ["apc"])
          (Val true))
       "piwi_refined.slx" Demo.settings0)
  = Ok tt.
Proof.
  apply run_returns_when_nothing_raises.
  - repeat split; intros; eexists; reflexivity.
  - intros _. simpl. repeat split; try (intros; eexists; reflexivity).
Defined.

Lemma none_options_block_figures_witness :
  outcome_of
    (evol_coevol (Demo.env (Ok tt) (λ _, Ok tt))
       (with_figformat_none
          (Demo.kwargs (Val "p") (Val ["minent"]) PyNone (Val true)))
       "piwi_refined.slx" Demo.settings0)
  ≠ Ok tt.
Proof.
  refine (proj2
    (none_options_block_figures (Demo.env (Ok tt) (λ _, Ok tt))
       (with_figformat_none
          (Demo.kwargs (Val "p") (Val ["minent"]) PyNone (Val true)))
       "piwi_refined.slx" Demo.settings0 (or_intror eq_refl)) eq_refl).
Defined.

Lemma prefix_keeps_the_directory_witness :
  ∃ root tail,
    "dir.d/piwi.slx.gz" = root +:+ tail
    ∧ Path.rfind "/"%char tail = -1
    ∧ prefix_of (Demo.kwargs PyNone PyNone PyNone PyNone) "dir.d/piwi.slx.gz"
      = root +:+ "_mutinfo".
Proof.
  exact (proj2
    (prefix_keeps_the_directory (Demo.kwargs PyNone PyNone PyNone PyNone)
       "dir.d/piwi.slx.gz") eq_refl).
Defined.
